(** * ghreview: a shallow embedding of [main.go]

    The program lists the pull requests of a repository page by page, keeps
    those of 2021 that the user [mpenkov] authored or merged, and renders a
    report.  Every answer of the GitHub API is kept in a cache on disk.

    The embedding follows [main.go] function by function.  The file system,
    the network and the log are an explicit [World] threaded through a small
    monad whose outcomes are a normal return, [log.Fatal] (the process
    exits), a run-time panic, or exhausted fuel for the one unbounded loop.
    The packages [encoding/json], [time], [sort] and [html/template] are
    not part of the repository: they are the fields of the class [GoLib]. *)

From Stdlib Require Import ZArith String Ascii List Lia Permutation.
From Stdlib Require Import DecimalString DecimalPos DecimalZ.
From stdpp Require Import gmap strings list.

Local Open Scope string_scope.
Local Open Scope Z_scope.

(** ** Go's [int] and [string] *)

(** [int] is 64 bits wide on the platforms the program targets; [x++] wraps. *)
Definition wrap64 (z : Z) : Z := (z + 2 ^ 63) mod 2 ^ 64 - 2 ^ 63.

Definition incr (x : Z) : Z := wrap64 (x + 1).

(** [%d] of [fmt.Sprintf] at an [int]. *)
Definition itoa (z : Z) : string := NilZero.string_of_int (Z.to_int z).

Definition len_s (s : string) : Z := Z.of_nat (String.length s).

(** [strings.LastIndex(s, sep)]: the index of the last occurrence of [sep]
    in [s], or -1.  [last_index_from s sep i] is that index for the suffix
    [s] of a string whose first [i] bytes were already passed. *)
Fixpoint last_index_from (s sep : string) (i : Z) : Z :=
  match s with
  | EmptyString => if String.prefix sep s then i else -1
  | String _ s' =>
      let r := last_index_from s' sep (i + 1) in
      if 0 <=? r then r else if String.prefix sep s then i else -1
  end.

Definition strings_LastIndex (s sep : string) : Z := last_index_from s sep 0.

(** The slice expression [s[:k]]; [None] is the run-time panic "slice bounds
    out of range". *)
Definition slice_to (s : string) (k : Z) : option string :=
  if (0 <=? k) && (k <=? len_s s)
  then Some (String.substring 0 (Z.to_nat k) s)
  else None.

(** ** The records of [main.go] *)

Definition bytes := list Byte.byte.

Record User := { Login : string }.

(** The field [Event] of the struct [Event] is [Event_kind] here. *)
Record Event := { Actor : User; Event_kind : string }.

Record Commit := { Author : User }.

(** The field [User] of the struct [Pull] is [Pull_User] here. *)
Record Pull := {
  Number : Z;
  HtmlUrl : string;
  CreatedAt : string;
  MergedAt : string;
  State : string;
  Title : string;
  Pull_User : User;
  MyContribution : string;
  Timestamp : string
}.

Definition set_Timestamp (p : Pull) (ts : string) : Pull :=
  {| Number := Number p; HtmlUrl := HtmlUrl p; CreatedAt := CreatedAt p;
     MergedAt := MergedAt p; State := State p; Title := Title p;
     Pull_User := Pull_User p; MyContribution := MyContribution p;
     Timestamp := ts |}.

Definition set_MyContribution (p : Pull) (c : string) : Pull :=
  {| Number := Number p; HtmlUrl := HtmlUrl p; CreatedAt := CreatedAt p;
     MergedAt := MergedAt p; State := State p; Title := Title p;
     Pull_User := Pull_User p; MyContribution := c;
     Timestamp := Timestamp p |}.

Definition PullList := list Pull.

Record RepoResult := {
  Name : string;
  Pulls : list Pull;
  Authored : Z;
  Merged : Z
}.

(** ** The world outside the process *)

(** What a path of the file system holds. *)
Inductive Node :=
| File (data : bytes)
| Dir.

(** What [http.Get] hands back: a transport error, or a response with its
    status code and what [io.ReadAll] gets out of its body (the bytes read
    and the error of the read, if any). *)
Record Response := {
  StatusCode : Z;
  Body : bytes * option string
}.

Inductive GetResult :=
| TransportError (err : string)
| Answer (resp : Response).

(** The calls that leave the process, in the order they happen. *)
Inductive IOEvent :=
| EvOpen (path : string)
| EvMkdirAll (path : string)
| EvWriteFile (path : string) (data : bytes)
| EvGet (url : string)
| EvSleep (ms : Z)
| EvLog (msg : string)
| EvPrint (text : string)
| EvReport (r : RepoResult).

Record World := {
  fs : gmap string Node;
  net : string -> GetResult;
  trace : list IOEvent
}.

Definition emit (e : IOEvent) (w : World) : World :=
  {| fs := fs w; net := net w; trace := trace w ++ [e] |}.

Definition set_fs (m : gmap string Node) (w : World) : World :=
  {| fs := m; net := net w; trace := trace w |}.

(** ** Outcomes and the monad *)

Inductive Outcome (A : Type) :=
| Returned (a : A) (w : World)
| Fatal (msg : string) (w : World)
| Panic (w : World)
| OutOfFuel.

Arguments Returned {A} a w.
Arguments Fatal {A} msg w.
Arguments Panic {A} w.
Arguments OutOfFuel {A}.

Definition M (A : Type) : Type := World -> Outcome A.

Definition ret {A} (a : A) : M A := fun w => Returned a w.

Definition bind {A B} (c : M A) (k : A -> M B) : M B :=
  fun w =>
    match c w with
    | Returned a w' => k a w'
    | Fatal msg w' => Fatal msg w'
    | Panic w' => Panic w'
    | OutOfFuel => OutOfFuel
    end.

Notation "'let*' x ':=' c 'in' k" := (bind c (fun x => k))
  (at level 10, x pattern, c at level 100, k at level 200).

(** [log.Fatal] and [log.Fatalf]: the message is logged and the process exits. *)
Definition log_Fatal {A} (msg : string) : M A := fun w => Fatal msg w.

(** A run-time panic. *)
Definition panic {A} : M A := fun w => Panic w.

Definition io (e : IOEvent) : M unit := fun w => Returned tt (emit e w).

Definition log_Printf (msg : string) : M unit := io (EvLog msg).

Definition time_Sleep (ms : Z) : M unit := io (EvSleep ms).

(** The built-in [append] of one element: the length of a slice is an
    [int], and the run time panics when the new length is not. *)
Definition append_slice {A} (s : list A) (x : A) : M (list A) :=
  fun w =>
    if Z.of_nat (length s) + 1 <? 2 ^ 63 then Returned (s ++ [x])%list w
    else Panic w.

(** ** The operating system *)

(** [os.Open]: the node at [path], or an error ([None]) when nothing is
    there.  A directory opens; reading it is what fails. *)
Definition os_Open (path : string) : M (option Node) :=
  fun w => Returned (fs w !! path) (emit (EvOpen path) w).

(** [io.ReadAll] on an opened file. *)
Definition io_ReadAll (f : Node) : option bytes :=
  match f with
  | File data => Some data
  | Dir => None
  end.

(** The prefixes of [s] that end just before a ['/'], and [s] itself, from
    the shortest: the directories [os.MkdirAll s] has to find or make.
    [pre] is what was passed already, reversed. *)
Fixpoint ancestors_from (pre : list ascii) (s : string) : list string :=
  match s with
  | EmptyString => [string_of_list_ascii (rev pre)]
  | String c s' =>
      (if Ascii.eqb c "/"%char then [string_of_list_ascii (rev pre)] else [])
      ++ ancestors_from (c :: pre) s'
  end.

Definition ancestors (s : string) : list string :=
  filter (fun d => d <> "") (ancestors_from [] s).

(** Make the directories of [ds] in turn; stop with an error ([true]) at
    the first that is a file.  Those made before it stay. *)
Fixpoint mkdirs (ds : list string) (m : gmap string Node) : gmap string Node * bool :=
  match ds with
  | [] => (m, false)
  | d :: ds' =>
      match m !! d with
      | Some (File _) => (m, true)
      | _ => mkdirs ds' (<[d := Dir]> m)
      end
  end.

(** [os.MkdirAll(path, 0700)]; the result is whether it failed.  The empty
    path is an error. *)
Definition os_MkdirAll (path : string) : M bool :=
  fun w =>
    let w' := emit (EvMkdirAll path) w in
    if String.eqb path "" then Returned true w' else
    let '(m, err) := mkdirs (ancestors path) (fs w) in
    Returned err (set_fs m w').

(** Whether the directory a file of the name [path] goes into is there:
    the working directory and the root always are. *)
Definition parent_exists (path : string) (m : gmap string Node) : bool :=
  match slice_to path (strings_LastIndex path "/") with
  | None => true
  | Some d =>
      if String.eqb d "" then true
      else match m !! d with Some Dir => true | _ => false end
  end.

Definition ends_with_slash (path : string) : bool :=
  len_s path - 1 =? strings_LastIndex path "/".

(** [os.WriteFile(path, data, 0700)]; the result is whether it failed: the
    path names a directory, or its directory is missing. *)
Definition os_WriteFile (path : string) (data : bytes) : M bool :=
  fun w =>
    let w' := emit (EvWriteFile path data) w in
    match fs w !! path with
    | Some Dir => Returned true w'
    | _ =>
        if ends_with_slash path || negb (parent_exists path (fs w))
        then Returned true w'
        else Returned false (set_fs (<[path := File data]> (fs w)) w')
    end.

(** [http.Get]. *)
Definition http_Get (url : string) : M GetResult :=
  fun w => Returned (net w url) (emit (EvGet url) w).

(** ** The cache functions *)

(** [readCache]: [Some data] is [(data, nil)], [None] is [(nil, err)]. *)
Definition readCache (path : string) : M (option bytes) :=
  let* file := os_Open path in
  match file with
  | None => ret None
  | Some f =>
      match io_ReadAll f with
      | None => ret None
      | Some data => ret (Some data)
      end
  end.

Definition writeCache (path : string) (data : bytes) : M unit :=
  match slice_to path (strings_LastIndex path "/") with
  | None => panic
  | Some subdir =>
      let* err := os_MkdirAll subdir in
      if err : bool then log_Fatal ("could not mkdir " +:+ subdir) else
      let* err := os_WriteFile path data in
      if err : bool then log_Fatal ("unable to write to " +:+ path) else
      ret tt
  end.

Definition httpGet (url : string) : M bytes :=
  let* r := http_Get url in
  match r with
  | TransportError err => log_Fatal err
  | Answer resp =>
      let body := fst (Body resp) in
      if StatusCode resp >? 299
      then log_Fatal ("HTTP " +:+ itoa (StatusCode resp))
      else
        let* _ := time_Sleep 5000 in
        ret body
  end.

(** ** The packages the program imports *)

(** [json.Unmarshal(data, &v)] at the three types it is used at takes the
    bytes and the value [v] holds, and gives the value [v] holds afterwards
    and the error, if any.  [time.Parse] takes the layout and the text.
    [sort.Sort] is taken at [PullList].  [report.Execute] gives the error of
    rendering a result, if any. *)
Class GoLib := {
  json_Unmarshal_Commit : bytes -> Commit -> Commit * option string;
  json_Unmarshal_Events : bytes -> list Event -> list Event * option string;
  json_Unmarshal_Pulls : bytes -> list Pull -> list Pull * option string;
  Time : Type;
  time_Parse : string -> string -> option Time;
  Year : Time -> Z;
  Format : Time -> string -> string;
  sort_Sort : PullList -> PullList;
  report_Execute : RepoResult -> option string
}.

(** ** [PullList] as a [sort.Interface] *)

(** [l[i]]; [None] is the run-time panic "index out of range". *)
Definition index {A} (l : list A) (i : Z) : option A :=
  if 0 <=? i then l !! Z.to_nat i else None.

Class sort_Interface (A : Type) := {
  Len : A -> Z;
  Less : A -> Z -> Z -> option bool;
  Swap : A -> Z -> Z -> option A
}.

Definition PullList_Len (pl : PullList) : Z := Z.of_nat (length pl).

Definition PullList_Less (pl : PullList) (i j : Z) : option bool :=
  match index pl i, index pl j with
  | Some a, Some b => Some (Number a >? Number b)
  | _, _ => None
  end.

Definition PullList_Swap (pl : PullList) (i j : Z) : option PullList :=
  match index pl i, index pl j with
  | Some a, Some b => Some (<[Z.to_nat j := a]> (<[Z.to_nat i := b]> pl))
  | _, _ => None
  end.

#[export] Instance PullList_sort_Interface : sort_Interface PullList := {
  Len := PullList_Len;
  Less := PullList_Less;
  Swap := PullList_Swap
}.

(** ** The loaders, the classifier and [main] *)

Definition mpenkov : string := "mpenkov".

(** What the [if] chain of [main] makes of a pull request. *)
Inductive Tag := TagAuthored | TagMerged | TagNone.

Definition Tag_string (t : Tag) : string :=
  match t with
  | TagAuthored => "authored"
  | TagMerged => "merged"
  | TagNone => ""
  end.

(** The variables of [main] that its loops update. *)
Record Tally := {
  pulls : list Pull;
  done : bool;
  authored : Z;
  merged : Z
}.

Definition Tally_init : Tally :=
  {| pulls := []; done := false; authored := 0; merged := 0 |}.

(** How the body of a [range] loop ends: [continue] and the end of the body
    both go on to the next element. *)
Inductive Ctl := Next | Break.

Section Program.

Context {lib : GoLib}.

Definition commits_path (repo sha : string) : string :=
  "cache/" +:+ repo +:+ "/commits/" +:+ sha +:+ ".json".

Definition events_path (repo : string) (issueNumber : Z) : string :=
  "cache/" +:+ repo +:+ "/events/" +:+ itoa issueNumber +:+ ".json".

Definition pulls_path (repo : string) (page : Z) : string :=
  "cache/" +:+ repo +:+ "/pulls/" +:+ itoa page +:+ ".json".

Definition loadCommit (repo sha : string) : M Commit :=
  let commit := {| Author := {| Login := "" |} |} in
  let jsonFilename := commits_path repo sha in
  let* r := readCache jsonFilename in
  match r with
  | Some data => ret (fst (json_Unmarshal_Commit data commit))
  | None =>
      let url := "https://api.github.com/repos/" +:+ repo +:+ "/commits/" +:+ sha in
      let* _ := log_Printf ("cache miss, reading " +:+ url +:+ " from the wire") in
      let* body := httpGet url in
      let* _ := writeCache jsonFilename body in
      match json_Unmarshal_Commit body commit with
      | (_, Some err) => log_Fatal ("JSON unmarshalling failed: " +:+ err)
      | (commit, None) => ret commit
      end
  end.

Definition loadEvents (repo : string) (issueNumber : Z) : M (list Event) :=
  let events : list Event := [] in
  let jsonFilename := events_path repo issueNumber in
  let* r := readCache jsonFilename in
  match r with
  | Some data => ret (fst (json_Unmarshal_Events data events))
  | None =>
      let url := "https://api.github.com/repos/" +:+ repo +:+ "/issues/"
                 +:+ itoa issueNumber +:+ "/events" in
      let* _ := log_Printf ("cache miss, reading " +:+ url +:+ " from the wire") in
      let* data := httpGet url in
      let* _ := writeCache jsonFilename data in
      match json_Unmarshal_Events data events with
      | (_, Some err) => log_Fatal ("JSON unmarshalling failed: " +:+ err)
      | (events, None) => ret events
      end
  end.

Definition loadPulls (repo : string) (page : Z) : M (list Pull) :=
  let pulls : list Pull := [] in
  let jsonFilename := pulls_path repo page in
  let* r := readCache jsonFilename in
  match r with
  | Some data => ret (fst (json_Unmarshal_Pulls data pulls))
  | None =>
      let url := "https://api.github.com/repos/" +:+ repo
                 +:+ "/pulls?state=all&page=" +:+ itoa page in
      let* _ := log_Printf ("cache miss, reading " +:+ url +:+ " from the wire") in
      let* data := httpGet url in
      let* _ := writeCache jsonFilename data in
      match json_Unmarshal_Pulls data pulls with
      | (_, Some err) => log_Fatal ("JSON unmarshalling failed: " +:+ err)
      | (pulls, None) => ret pulls
      end
  end.

(** The [range] loop of [whoMerged]. *)
Fixpoint whoMerged_range (events : list Event) : User :=
  match events with
  | [] => {| Login := "nobody" |}
  | event :: rest =>
      if String.eqb (Event_kind event) "merged" then Actor event
      else whoMerged_range rest
  end.

Definition whoMerged (repo : string) (issueNumber : Z) : M User :=
  let* events := loadEvents repo issueNumber in
  ret (whoMerged_range events).

Definition parseTime (pull : Pull) : M Time :=
  let format := "2006-01-02T15:04:05Z" in
  match time_Parse format (CreatedAt pull) with
  | None => log_Fatal ("unable to parse time from " +:+ CreatedAt pull)
  | Some parsedTime => ret parsedTime
  end.

(** The [if] / [else if] / [else] of [main]: [&&] calls [whoMerged] only
    for a closed pull request. *)
Definition classify (repo : string) (p : Pull) : M Tag :=
  if String.eqb (Login (Pull_User p)) mpenkov then ret TagAuthored
  else
    let* cond :=
      (if String.eqb (State p) "closed"
       then let* who := whoMerged repo (Number p) in
            ret (String.eqb (Login who) mpenkov)
       else ret false) in
    if cond : bool then ret TagMerged else ret TagNone.

(** The body of the loop over the pull requests of a page. *)
Definition visit (repo : string) (p : Pull) (st : Tally) : M (Ctl * Tally) :=
  let* ts := parseTime p in
  if Year ts >? 2021 then ret (Next, st)
  else if Year ts <? 2021 then
    ret (Break, {| pulls := pulls st; done := true;
                   authored := authored st; merged := merged st |})
  else
    let p := set_Timestamp p (Format ts "2006-01-02") in
    let* tag := classify repo p in
    match tag with
    | TagAuthored =>
        let p := set_MyContribution p (Tag_string TagAuthored) in
        let authored := incr (authored st) in
        let* pulls := append_slice (pulls st) p in
        ret (Next, {| pulls := pulls; done := done st;
                      authored := authored; merged := merged st |})
    | TagMerged =>
        let p := set_MyContribution p (Tag_string TagMerged) in
        let merged := incr (merged st) in
        let* pulls := append_slice (pulls st) p in
        ret (Next, {| pulls := pulls; done := done st;
                      authored := authored st; merged := merged |})
    | TagNone => ret (Next, st)
    end.

Fixpoint range_pulls (repo : string) (pagePulls : list Pull) (st : Tally) : M Tally :=
  match pagePulls with
  | [] => ret st
  | p :: rest =>
      let* r := visit repo p st in
      match r with
      | (Next, st') => range_pulls repo rest st'
      | (Break, st') => ret st'
      end
  end.

(** The loop [for page := 1; !done; page++]; [fuel] bounds the number of
    pages loaded. *)
Fixpoint pages (fuel : nat) (repo : string) (page : Z) (st : Tally) : M Tally :=
  if done st then ret st else
  match fuel with
  | O => fun _ => OutOfFuel
  | S fuel' =>
      let* pagePulls := loadPulls repo page in
      if Z.of_nat (length pagePulls) =? 0 then ret st else
      let* st' := range_pulls repo (sort_Sort pagePulls) st in
      pages fuel' repo (incr page) st'
  end.

Definition result_of (repo : string) (st : Tally) : RepoResult :=
  {| Name := repo; Pulls := pulls st;
     Authored := authored st; Merged := merged st |}.

(** The body of the loop over the repositories. *)
Definition report_repo (fuel : nat) (repo : string) : M unit :=
  let* st := pages fuel repo 1 Tally_init in
  let r := result_of repo st in
  let* _ := io (EvReport r) in
  match report_Execute r with
  | Some err => log_Fatal err
  | None => ret tt
  end.

Fixpoint range_repos (fuel : nat) (repos : list string) : M unit :=
  match repos with
  | [] => ret tt
  | repo :: rest =>
      let* _ := report_repo fuel repo in
      range_repos fuel rest
  end.

(** [main], given [os.Args] and the text of the constant [header]. *)
Definition main (fuel : nat) (header : string) (Args : list string) : M unit :=
  match Args with
  | [] => panic
  | _ :: repos =>
      let* _ := io (EvPrint header) in
      range_repos fuel repos
  end.

End Program.

(** ** Stand-ins for the imported packages

    Small executable versions of the packages, for running the program on
    concrete worlds.  Every general statement below is about an arbitrary
    [GoLib]; these are one of them. *)
Module Fake.

(** A time is its year, month and day. *)
Definition Time : Type := Z * Z * Z.

Definition digit (c : ascii) : option Z :=
  let n := Z.of_N (N_of_ascii c) in
  if (48 <=? n) && (n <=? 57) then Some (n - 48) else None.

(** Read [n] decimal digits off the front of [s]. *)
Fixpoint digits (n : nat) (s : string) (acc : Z) : option (Z * string) :=
  match n with
  | O => Some (acc, s)
  | S n' =>
      match s with
      | EmptyString => None
      | String c s' =>
          match digit c with
          | Some d => digits n' s' (10 * acc + d)
          | None => None
          end
      end
  end.

Definition expect (c : ascii) (s : string) : option string :=
  match s with
  | String c' s' => if Ascii.eqb c c' then Some s' else None
  | EmptyString => None
  end.

(** Texts of the shape [YYYY-MM-DDThh:mm:ssZ] and nothing else. *)
Definition time_Parse (layout value : string) : option Time :=
  y ← digits 4 value 0;
  s ← expect "-" y.2;
  m ← digits 2 s 0;
  s ← expect "-" m.2;
  d ← digits 2 s 0;
  s ← expect "T" d.2;
  h ← digits 2 s 0;
  s ← expect ":" h.2;
  mi ← digits 2 s 0;
  s ← expect ":" mi.2;
  se ← digits 2 s 0;
  s ← expect "Z" se.2;
  if String.eqb s ""
     && (1 <=? m.1) && (m.1 <=? 12) && (1 <=? d.1) && (d.1 <=? 31)
     && (h.1 <? 24) && (mi.1 <? 60) && (se.1 <? 60)
  then Some (y.1, m.1, d.1) else None.

Definition Year (t : Time) : Z := t.1.1.

Definition pad2 (z : Z) : string :=
  if z <? 10 then "0" +:+ itoa z else itoa z.

Definition Format (t : Time) (layout : string) : string :=
  itoa t.1.1 +:+ "-" +:+ pad2 t.1.2 +:+ "-" +:+ pad2 t.2.

(** Insertion from the left into a list that is already in order. *)
Fixpoint insert_desc (p : Pull) (l : list Pull) : list Pull :=
  match l with
  | [] => [p]
  | q :: l' => if Number q >=? Number p then q :: insert_desc p l' else p :: l
  end.

Definition sort_Sort (pl : PullList) : PullList :=
  foldr insert_desc [] pl.

Definition user (login : string) : User := {| Login := login |}.

Definition pull (n : Z) (created state login : string) : Pull :=
  {| Number := n; HtmlUrl := ""; CreatedAt := created; MergedAt := "";
     State := state; Title := ""; Pull_User := user login;
     MyContribution := ""; Timestamp := "" |}.

(** The documents the decoders know, by their text. *)
Definition doc_page : string := "[#5 mpenkov 2021-03-01, #4 other closed 2021-02-01]".
Definition doc_empty : string := "[]".
Definition doc_merged : string := "[merged by mpenkov]".
Definition doc_old : string := "[#9 other open 2022-01-05, #8 mpenkov 2020-12-31, #7 mpenkov 2021-06-01]".
Definition doc_broken : string := "[{".

Definition p5 : Pull := pull 5 "2021-03-01T10:00:00Z" "open" "mpenkov".
Definition p4 : Pull := pull 4 "2021-02-01T10:00:00Z" "closed" "other".
Definition p9 : Pull := pull 9 "2022-01-05T00:00:00Z" "open" "other".
Definition p8 : Pull := pull 8 "2020-12-31T23:59:59Z" "open" "mpenkov".
Definition p7 : Pull := pull 7 "2021-06-01T00:00:00Z" "open" "mpenkov".

Definition text (data : bytes) : string := string_of_list_byte data.

Definition json_Unmarshal_Pulls (data : bytes) (v : list Pull) : list Pull * option string :=
  if String.eqb (text data) doc_page then ([p4; p5], None)
  else if String.eqb (text data) doc_old then ([p7; p9; p8], None)
  else if String.eqb (text data) doc_empty then ([], None)
  else (v, Some "unexpected end of JSON input").

Definition json_Unmarshal_Events (data : bytes) (v : list Event) : list Event * option string :=
  if String.eqb (text data) doc_merged
  then ([ {| Actor := user "other"; Event_kind := "closed" |};
          {| Actor := user "mpenkov"; Event_kind := "merged" |} ], None)
  else if String.eqb (text data) doc_empty then ([], None)
  else (v, Some "unexpected end of JSON input").

Definition json_Unmarshal_Commit (data : bytes) (v : Commit) : Commit * option string :=
  (v, Some "unexpected end of JSON input").

#[export] Instance lib : GoLib := {
  json_Unmarshal_Commit := json_Unmarshal_Commit;
  json_Unmarshal_Events := json_Unmarshal_Events;
  json_Unmarshal_Pulls := json_Unmarshal_Pulls;
  Time := Time;
  time_Parse := time_Parse;
  Year := Year;
  Format := Format;
  sort_Sort := sort_Sort;
  report_Execute := fun _ => None
}.

Definition file (s : string) : Node := File (list_byte_of_string s).

(** No network: every request fails in transport. *)
Definition offline (url : string) : GetResult := TransportError "no route to host".

Definition world (files : list (string * Node)) (n : string -> GetResult) : World :=
  {| fs := list_to_map files; net := n; trace := [] |}.

(** The cache of the repository [octo/demo]: one page of two pull requests,
    then an empty page; number 4 was merged by [mpenkov]. *)
Definition demo : World :=
  world [ ("cache/octo/demo/pulls/1.json", file doc_page);
          ("cache/octo/demo/pulls/2.json", file doc_empty);
          ("cache/octo/demo/events/4.json", file doc_merged) ] offline.

(** A cache whose first page has a pull request of 2020 between two others. *)
Definition aged : World :=
  world [ ("cache/octo/demo/pulls/1.json", file doc_old);
          ("cache/octo/demo/pulls/2.json", file doc_page) ] offline.

(** A cache whose first page is not JSON. *)
Definition broken : World :=
  world [ ("cache/octo/demo/pulls/1.json", file doc_broken) ] offline.



(** A server that answers every request with the page of two pull requests. *)
Definition serving (url : string) : GetResult :=
  Answer {| StatusCode := 200; Body := (list_byte_of_string doc_page, None) |}.

(** A server that answers every request with something that is not JSON. *)
Definition garbling (url : string) : GetResult :=
  Answer {| StatusCode := 200; Body := (list_byte_of_string doc_broken, None) |}.

(** A page with a pull request whose creation time is no time, and a
    decoder that knows it besides the others. *)
Definition doc_undated : string := "[#6 mpenkov yesterday]".

Definition p6 : Pull := pull 6 "yesterday" "open" "mpenkov".

Definition json_Unmarshal_Pulls_undated (data : bytes) (v : list Pull)
    : list Pull * option string :=
  if String.eqb (text data) doc_undated then ([p6], None)
  else json_Unmarshal_Pulls data v.

Definition lib_undated : GoLib :=
  Build_GoLib json_Unmarshal_Commit json_Unmarshal_Events
    json_Unmarshal_Pulls_undated Time time_Parse Year Format sort_Sort
    (fun _ => None).

End Fake.

(** ** Notions the statements use *)

(** The world an outcome leaves behind, if it leaves one. *)
Definition world_of {A} (o : Outcome A) : option World :=
  match o with
  | Returned _ w => Some w
  | Fatal _ w => Some w
  | Panic w => Some w
  | OutOfFuel => None
  end.

(** The calls that reach the network or wait for its rate limit. *)
Definition is_remote (e : IOEvent) : bool :=
  match e with
  | EvGet _ | EvSleep _ => true
  | _ => false
  end.

Definition remote_calls (w : World) : list IOEvent :=
  List.filter is_remote (trace w).


(** The string has no ['/']. *)
Definition slash_free (s : string) : Prop :=
  ~ In "/"%char (list_ascii_of_string s).




(** The counters of a result add up to the number of its pull requests. *)
Definition counted (r : RepoResult) : Prop :=
  Authored r + Merged r = Z.of_nat (length (Pulls r)).

Definition nobody : User := {| Login := "nobody" |}.

(** The world an outcome leaves behind, or [w] when it leaves none. *)
Definition world_after {A} (o : Outcome A) (w : World) : World :=
  match world_of o with
  | Some w' => w'
  | None => w
  end.

(** [who] is the actor of the first event of the kind "merged" in
    [events], or the user [nobody] when there is no such event. *)
Definition first_merged_actor (events : list Event) (who : User) : Prop :=
  (exists pre e post,
     events = (pre ++ e :: post)%list /\
     Forall (fun x => Event_kind x <> "merged") pre /\
     Event_kind e = "merged" /\ who = Actor e)
  \/ (Forall (fun x => Event_kind x <> "merged") events /\ who = nobody).

(** The layout [parseTime] reads. *)
Definition layout : string := "2006-01-02T15:04:05Z".

(** What a visit that returns did to the tally: it stopped the traversal,
    or left the tally alone, or appended the pull request under one of the
    two tags and counted it once. *)
Inductive visited (p : Pull) (st : Tally) : Ctl -> Tally -> Prop :=
| visited_break :
    visited p st Break {| pulls := pulls st; done := true;
                          authored := authored st; merged := merged st |}
| visited_skip : visited p st Next st
| visited_authored ts :
    Z.of_nat (length (pulls st)) + 1 < 2 ^ 63 ->
    visited p st Next
      {| pulls := pulls st ++ [set_MyContribution (set_Timestamp p ts) "authored"];
         done := done st; authored := incr (authored st); merged := merged st |}
| visited_merged ts :
    Z.of_nat (length (pulls st)) + 1 < 2 ^ 63 ->
    visited p st Next
      {| pulls := pulls st ++ [set_MyContribution (set_Timestamp p ts) "merged"];
         done := done st; authored := authored st; merged := incr (merged st) |}.

(** The results handed to the renderer so far. *)
Definition report_of (e : IOEvent) : option RepoResult :=
  match e with
  | EvReport r => Some r
  | _ => None
  end.

Definition reports (w : World) : list RepoResult :=
  omap report_of (trace w).

(** A computation that hands nothing to the renderer, however it ends. *)
Definition quiet {A} (c : M A) : Prop :=
  forall w wf, world_of (c w) = Some wf -> reports wf = reports w.

(** The counters of a tally add up to the length of its slice, which is
    an [int]. *)
Definition tally_ok (st : Tally) : Prop :=
  0 <= authored st /\ 0 <= merged st /\
  authored st + merged st = Z.of_nat (length (pulls st)) /\
  Z.of_nat (length (pulls st)) < 2 ^ 63.

(** A computation that never ends in a run-time panic. *)
Definition calm {A} (c : M A) : Prop :=
  forall w w', c w <> Panic w'.

(** The paths opened so far. *)
Definition open_of (e : IOEvent) : option string :=
  match e with
  | EvOpen path => Some path
  | _ => None
  end.

Definition opened (w : World) : list string :=
  omap open_of (trace w).

(** ** Notions for the loaders *)

(** The addresses the loaders fetch. *)
Definition commits_url (repo sha : string) : string :=
  "https://api.github.com/repos/" +:+ repo +:+ "/commits/" +:+ sha.

Definition events_url (repo : string) (issueNumber : Z) : string :=
  "https://api.github.com/repos/" +:+ repo +:+ "/issues/"
  +:+ itoa issueNumber +:+ "/events".

Definition pulls_url (repo : string) (page : Z) : string :=
  "https://api.github.com/repos/" +:+ repo
  +:+ "/pulls?state=all&page=" +:+ itoa page.

(** The text the three loaders share, with the decoder, the value the
    variable starts with, the file and the address left open.  Each loader
    is this text at its own four (lemmas [loadPulls_shared] and the like). *)
Definition load_shared {T} (unmarshal : bytes -> T -> T * option string)
    (zero : T) (jsonFilename url : string) : M T :=
  let* r := readCache jsonFilename in
  match r with
  | Some data => ret (fst (unmarshal data zero))
  | None =>
      let* _ := log_Printf ("cache miss, reading " +:+ url +:+ " from the wire") in
      let* data := httpGet url in
      let* _ := writeCache jsonFilename data in
      match unmarshal data zero with
      | (_, Some err) => log_Fatal ("JSON unmarshalling failed: " +:+ err)
      | (v, None) => ret v
      end
  end.

(** The cache has no file at [path]: nothing is there, or a directory. *)
Definition cache_miss (path : string) (w : World) : Prop :=
  forall b, fs w !! path <> Some (File b).

(** The world after a miss at [path] and an answered request to [url]. *)
Definition fetched (path url : string) (w : World) : World :=
  emit (EvSleep 5000)
    (emit (EvGet url)
       (emit (EvLog ("cache miss, reading " +:+ url +:+ " from the wire"))
          (emit (EvOpen path) w))).

(** After a miss, a load that returns has left the answer in the cache: the
    same load, run again, returns the same value from the file and calls
    nothing remote. *)
Definition refills {T} (load : M T) (path : string) : Prop :=
  forall w v w1,
    cache_miss path w -> load w = Returned v w1 ->
    exists body,
      fs w1 !! path = Some (File body) /\
      load w1 = Returned v (emit (EvOpen path) w1) /\
      remote_calls (emit (EvOpen path) w1) = remote_calls w1.

(** After a miss, a load that returns has made one request, to [url], and
    slept once, for 5000 ms. *)
Definition fetches_once {T} (load : M T) (path url : string) : Prop :=
  forall w v w1,
    cache_miss path w -> load w = Returned v w1 ->
    remote_calls w1 = (remote_calls w ++ [EvGet url; EvSleep 5000])%list.

(** After a miss, an answer that is stored and then fails to decode ends
    the process, with the answer in the cache; the same load, run again on
    what was left, returns what the decoder left in the variable. *)
Definition stores_before_decoding {T} (unmarshal : bytes -> T -> T * option string)
    (zero : T) (load : M T) (path url : string) : Prop :=
  forall w resp w3 v err,
    cache_miss path w ->
    net w url = Answer resp -> StatusCode resp <= 299 ->
    writeCache path (Body resp).1 (fetched path url w) = Returned tt w3 ->
    unmarshal (Body resp).1 zero = (v, Some err) ->
    load w = Fatal ("JSON unmarshalling failed: " +:+ err) w3 /\
    fs w3 !! path = Some (File (Body resp).1) /\
    load w3 = Returned v (emit (EvOpen path) w3).

(** After a miss, a request that fails in transport or is answered with a
    status above 299 ends the process: the files are as they were, one
    request was made and nothing slept. *)
Definition dies_on_failed_fetch {T} (load : M T) (path url : string) : Prop :=
  forall w,
    cache_miss path w ->
    (forall resp, net w url = Answer resp -> 299 < StatusCode resp) ->
    exists msg wf,
      load w = Fatal msg wf /\ fs wf = fs w /\
      remote_calls wf = (remote_calls w ++ [EvGet url])%list.

(** ** Notions for the results *)

(** A pull request as [main] keeps it: created in 2021, with the day of
    its creation as timestamp, and tagged "authored" when its author is
    [mpenkov], or "merged" when it is closed and of another author. *)
Definition kept {lib : GoLib} (p : Pull) : Prop :=
  (exists t, time_Parse layout (CreatedAt p) = Some t /\ Year t = 2021 /\
             Timestamp p = Format t "2006-01-02") /\
  (MyContribution p = "authored" /\ Login (Pull_User p) = mpenkov \/
   MyContribution p = "merged" /\ Login (Pull_User p) <> mpenkov /\
     State p = "closed").

(** The number of pull requests with a tag. *)
Definition tagged (tag : string) (ps : list Pull) : Z :=
  Z.of_nat (length (filter (fun p => MyContribution p = tag) ps)).

(** Each counter of a result is the number of its pull requests with the
    tag of the counter. *)
Definition tags_counted (r : RepoResult) : Prop :=
  Authored r = tagged "authored" (Pulls r) /\
  Merged r = tagged "merged" (Pulls r).

Definition tally_tags (st : Tally) : Prop :=
  tally_ok st /\
  authored st = tagged "authored" (pulls st) /\
  merged st = tagged "merged" (pulls st).

(** A directory sits where the file of the cache should be, and the
    request is answered: the load requests, sleeps, and ends the process at
    the write. *)
Definition fetches_then_dies {T} (load : M T) (path url : string) : Prop :=
  forall w resp,
    fs w !! path = Some Dir ->
    net w url = Answer resp -> StatusCode resp <= 299 ->
    exists msg wf,
      load w = Fatal msg wf /\
      remote_calls wf = (remote_calls w ++ [EvGet url; EvSleep 5000])%list /\
      fs wf !! path = Some Dir.

(** After a miss, a load goes on with the bytes read from the body of the
    answer whether or not reading the body failed: when they are stored and
    decode, the load returns their value and they are in the cache. *)
Definition overlooks_read_error {T} (unmarshal : bytes -> T -> T * option string)
    (zero : T) (load : M T) (path url : string) : Prop :=
  forall w resp w3 v (err : string),
    cache_miss path w ->
    net w url = Answer resp -> StatusCode resp <= 299 ->
    (Body resp).2 = Some err ->
    writeCache path (Body resp).1 (fetched path url w) = Returned tt w3 ->
    unmarshal (Body resp).1 zero = (v, None) ->
    load w = Returned v w3 /\ fs w3 !! path = Some (File (Body resp).1).

(** The files a traversal opens from the page [page] on: the file of the
    page, then event lists of the repository, then the same from the next
    page on. *)
Inductive page_run (repo : string) : Z -> list string -> Prop :=
| page_run_end page : page_run repo page []
| page_run_page page evs rest :
    Forall (fun q => exists n, q = events_path repo n) evs ->
    page_run repo (incr page) rest ->
    page_run repo page (pulls_path repo page :: evs ++ rest).

(** However a load ends, when it made no request it changed no file. *)
Definition writes_only_after_request {T} (load : M T) : Prop :=
  forall w wf,
    world_of (load w) = Some wf ->
    remote_calls wf = remote_calls w -> fs wf = fs w.

(** * Properties *)

(** ** The cache store *)


Lemma readCache_file (path : string) (b : bytes) (w : World) :
  fs w !! path = Some (File b) ->
  readCache path w = Returned (Some b) (emit (EvOpen path) w).
Proof.
  intros H. unfold readCache, bind, os_Open. rewrite H. reflexivity.
Qed.

Lemma readCache_inv (path : string) (w : World) r w' :
  readCache path w = Returned r w' ->
  w' = emit (EvOpen path) w /\
  (forall b, r = Some b <-> fs w !! path = Some (File b)).
Proof.
  unfold readCache, bind, os_Open.
  destruct (fs w !! path) as [[data|]|] eqn:Hd; simpl; unfold ret;
    intros [= <- <-]; split; try done; intros b; split; congruence.
Qed.

Lemma readCache_returns (path : string) (w : World) :
  exists r, readCache path w = Returned r (emit (EvOpen path) w).
Proof.
  unfold readCache, bind, os_Open.
  destruct (fs w !! path) as [[data|]|]; simpl; eauto.
Qed.

Lemma writeCache_stores (path : string) (b : bytes) (w w' : World) :
  writeCache path b w = Returned tt w' -> fs w' !! path = Some (File b).
Proof.
  unfold writeCache. destruct (slice_to _ _) as [subdir|]; [|done].
  unfold bind, os_MkdirAll.
  destruct (String.eqb subdir ""); [done|].
  destruct (mkdirs _ _) as [m [|]]; [done|].
  unfold os_WriteFile. simpl.
  destruct (m !! path) as [[data|]|]; try done;
    destruct (_ || _); try done; intros [= <-]; simpl;
    apply lookup_insert_eq.
Qed.





(** ** The remote fetcher *)

Lemma remote_calls_emit (e : IOEvent) (w : World) :
  remote_calls (emit e w) = (remote_calls w ++ (if is_remote e then [e] else []))%list.
Proof.
  unfold remote_calls, emit; simpl. rewrite List.filter_app. simpl.
  destruct (is_remote e); reflexivity.
Qed.





(** ** The loaders *)

Section Loaders.

Context {lib : GoLib}.

Lemma loadPulls_hit (repo : string) (page : Z) (w w1 : World) (data : bytes) :
  readCache (pulls_path repo page) w = Returned (Some data) w1 ->
  loadPulls repo page w = Returned (json_Unmarshal_Pulls data []).1 w1.
Proof. intros H. unfold loadPulls, bind. rewrite H. reflexivity. Qed.

Lemma loadEvents_hit (repo : string) (issueNumber : Z) (w w1 : World) (data : bytes) :
  readCache (events_path repo issueNumber) w = Returned (Some data) w1 ->
  loadEvents repo issueNumber w = Returned (json_Unmarshal_Events data []).1 w1.
Proof. intros H. unfold loadEvents, bind. rewrite H. reflexivity. Qed.

Lemma loadCommit_hit (repo sha : string) (w w1 : World) (data : bytes) :
  readCache (commits_path repo sha) w = Returned (Some data) w1 ->
  loadCommit repo sha w =
    Returned (json_Unmarshal_Commit data {| Author := {| Login := "" |} |}).1 w1.
Proof. intros H. unfold loadCommit, bind. rewrite H. reflexivity. Qed.

Lemma readCache_remote_calls (path : string) (w w1 : World) r :
  readCache path w = Returned r w1 -> remote_calls w1 = remote_calls w.
Proof.
  intros H. apply readCache_inv in H as [-> _].
  rewrite remote_calls_emit. simpl. apply app_nil_r.
Qed.

(** C5.  When the read of the cache succeeds, each loader returns what
    [json.Unmarshal] makes of the cached bytes, in the world the read left:
    the network was not called and nothing slept. *)
Theorem cache_hit_skips_remote
    (repo sha : string) (n : Z) (w w1 : World) (data : bytes) :
  (readCache (pulls_path repo n) w = Returned (Some data) w1 ->
     loadPulls repo n w = Returned (json_Unmarshal_Pulls data []).1 w1 /\
     remote_calls w1 = remote_calls w) /\
  (readCache (events_path repo n) w = Returned (Some data) w1 ->
     loadEvents repo n w = Returned (json_Unmarshal_Events data []).1 w1 /\
     remote_calls w1 = remote_calls w) /\
  (readCache (commits_path repo sha) w = Returned (Some data) w1 ->
     loadCommit repo sha w =
       Returned (json_Unmarshal_Commit data {| Author := {| Login := "" |} |}).1 w1 /\
     remote_calls w1 = remote_calls w).
Proof.
  repeat split; eauto using loadPulls_hit, loadEvents_hit, loadCommit_hit,
    readCache_remote_calls.
Qed.

(** C1 fails on the code.  On a cache hit the error of [json.Unmarshal] is
    dropped: when decoding the cached bytes fails with [err], each loader
    still returns, with whatever the decoder left in the variable. *)
Theorem cache_hit_drops_decode_error
    (repo sha : string) (n : Z) (w w1 : World) (data : bytes) (err : string) :
  (forall v, readCache (pulls_path repo n) w = Returned (Some data) w1 ->
     json_Unmarshal_Pulls data [] = (v, Some err) ->
     loadPulls repo n w = Returned v w1) /\
  (forall v, readCache (events_path repo n) w = Returned (Some data) w1 ->
     json_Unmarshal_Events data [] = (v, Some err) ->
     loadEvents repo n w = Returned v w1) /\
  (forall v, readCache (commits_path repo sha) w = Returned (Some data) w1 ->
     json_Unmarshal_Commit data {| Author := {| Login := "" |} |} = (v, Some err) ->
     loadCommit repo sha w = Returned v w1).
Proof.
  repeat split; intros v Hr Hd.
  - rewrite (loadPulls_hit _ _ _ _ _ Hr), Hd. reflexivity.
  - rewrite (loadEvents_hit _ _ _ _ _ Hr), Hd. reflexivity.
  - rewrite (loadCommit_hit _ _ _ _ _ Hr), Hd. reflexivity.
Qed.

(** ** The loop over the pages *)

Lemma length_append (s t : string) :
  String.length (s +:+ t) = (String.length s + String.length t)%nat.
Proof. induction s as [|c s IH]; simpl; [reflexivity | rewrite IH; reflexivity]. Qed.

Lemma append_inv_tail (t : string) :
  forall s1 s2 : string, s1 +:+ t = s2 +:+ t -> s1 = s2.
Proof.
  assert (forall c s, t <> String c (s +:+ t)) as Hlen.
  { intros c s H. apply (f_equal String.length) in H.
    simpl in H. rewrite length_append in H. lia. }
  induction s1 as [|c1 s1 IH]; intros [|c2 s2] H; simpl in H.
  - reflexivity.
  - destruct (Hlen _ _ H).
  - destruct (Hlen _ _ (eq_sym H)).
  - injection H as -> H. f_equal. apply IH, H.
Qed.

Lemma to_int_not_nil (z : Z) :
  Z.to_int z <> Decimal.Pos Decimal.Nil /\ Z.to_int z <> Decimal.Neg Decimal.Nil.
Proof. destruct z as [|p|p]; simpl; split; try discriminate;
  intros [= H]; apply (DecimalPos.Unsigned.to_uint_nonnil p H).
Qed.

Lemma itoa_inj (a b : Z) : itoa a = itoa b -> a = b.
Proof.
  unfold itoa. intros H. apply DecimalZ.to_int_inj.
  destruct (to_int_not_nil a) as [Ha1 Ha2], (to_int_not_nil b) as [Hb1 Hb2].
  pose proof (NilZero.isi _ Ha1 Ha2) as Ia.
  pose proof (NilZero.isi _ Hb1 Hb2) as Ib.
  rewrite H, Ib in Ia. congruence.
Qed.

Lemma pulls_path_inj (repo : string) (a b : Z) :
  pulls_path repo a = pulls_path repo b -> a = b.
Proof.
  unfold pulls_path. intros H.
  do 3 apply String.app_inj in H.
  apply itoa_inj, (append_inv_tail ".json"), H.
Qed.

Lemma incr_neq (x : Z) : incr x <> x.
Proof.
  unfold incr, wrap64. intros H.
  pose proof (Z.div_mod (x + 1 + 2 ^ 63) (2 ^ 64) ltac:(lia)). lia.
Qed.

Lemma opened_emit (e : IOEvent) (w : World) :
  opened (emit e w) = (opened w ++ from_option (fun p => [p]) [] (open_of e))%list.
Proof.
  unfold opened, emit; simpl. rewrite omap_app. simpl.
  destruct (open_of e); reflexivity.
Qed.

Lemma opened_set_fs (m : gmap string Node) (w : World) :
  opened (set_fs m w) = opened w.
Proof. reflexivity. Qed.

(** A load of a page opens the file of that page and no other, however it
    ends. *)
Lemma loadPulls_opened (repo : string) (page : Z) (w wf : World) :
  world_of (loadPulls repo page w) = Some wf ->
  opened wf = (opened w ++ [pulls_path repo page])%list.
Proof.
  unfold loadPulls, bind.
  destruct (readCache_returns (pulls_path repo page) w) as [r ->].
  assert (opened (emit (EvOpen (pulls_path repo page)) w)
          = (opened w ++ [pulls_path repo page])%list) as <-
    by apply opened_emit.
  set (w0 := emit (EvOpen (pulls_path repo page)) w).
  destruct r as [data|]; [intros [= <-]; reflexivity|].
  unfold log_Printf, io, httpGet, bind, http_Get, log_Fatal, time_Sleep, io,
    writeCache, bind, os_MkdirAll, os_WriteFile, log_Fatal, ret, panic.
  intros H. repeat (case_match; simplify_eq/=);
    repeat first [rewrite opened_set_fs | rewrite opened_emit]; simpl;
    rewrite ?app_nil_r; reflexivity.
Qed.

(** C7.  When the load of a page gives no pull request, the loop over the
    pages ends there: it returns the tally it had, in the world the load
    left.  Since the loop began, the file of that page was opened and no
    other, and it is not the file of the next page: the next page is not
    loaded. *)
Theorem empty_page_stops
    (fuel : nat) (repo : string) (page : Z) (st : Tally) (w w1 : World) :
  done st = false ->
  loadPulls repo page w = Returned [] w1 ->
  pages (S fuel) repo page st w = Returned st w1 /\
  opened w1 = (opened w ++ [pulls_path repo page])%list /\
  pulls_path repo (incr page) <> pulls_path repo page.
Proof.
  intros Hd Hl. split; [|split].
  - simpl. rewrite Hd. unfold bind. rewrite Hl. reflexivity.
  - apply loadPulls_opened. rewrite Hl. reflexivity.
  - intros H. apply pulls_path_inj in H. apply (incr_neq page H).
Qed.

End Loaders.

Lemma cache_hit_skips_remote_witness :
  let w := Fake.demo in
  let w1 := emit (EvOpen "cache/octo/demo/pulls/1.json") w in
  loadPulls (lib := Fake.lib) "octo/demo" 1 w = Returned [Fake.p4; Fake.p5] w1 /\
  remote_calls w1 = remote_calls w.
Proof.
  intros w w1.
  apply (proj1 (cache_hit_skips_remote (lib := Fake.lib) "octo/demo" "" 1 w w1
                  (list_byte_of_string Fake.doc_page))).
  vm_compute. reflexivity.
Defined.

Lemma cache_hit_drops_decode_error_witness :
  let w := Fake.broken in
  loadPulls (lib := Fake.lib) "octo/demo" 1 w =
    Returned [] (emit (EvOpen "cache/octo/demo/pulls/1.json") w).
Proof.
  intros w.
  apply (proj1 (cache_hit_drops_decode_error (lib := Fake.lib) "octo/demo" "" 1 w
                  (emit (EvOpen "cache/octo/demo/pulls/1.json") w)
                  (list_byte_of_string Fake.doc_broken)
                  "unexpected end of JSON input")).
  - vm_compute. reflexivity.
  - vm_compute. reflexivity.
Defined.

Lemma empty_page_stops_witness :
  let w := Fake.demo in
  let w1 := emit (EvOpen "cache/octo/demo/pulls/2.json") w in
  pages (lib := Fake.lib) 1 "octo/demo" 2 Tally_init w = Returned Tally_init w1 /\
  opened w1 = (opened w ++ ["cache/octo/demo/pulls/2.json"])%list /\
  "cache/octo/demo/pulls/3.json" <> "cache/octo/demo/pulls/2.json".
Proof.
  intros w w1.
  apply (empty_page_stops (lib := Fake.lib) 0 "octo/demo" 2 Tally_init w w1).
  - reflexivity.
  - vm_compute. reflexivity.
Defined.

(** ** The classifier *)

Section Classifier.

Context {lib : GoLib}.

Lemma whoMerged_range_first (events : list Event) :
  first_merged_actor events (whoMerged_range events).
Proof.
  induction events as [|e events IH]; simpl.
  - right. split; [constructor | reflexivity].
  - destruct (String.eqb_spec (Event_kind e) "merged") as [He|He].
    + left. exists [], e, events. repeat split; [constructor | exact He].
    + destruct IH as [(pre & e' & post & -> & Hpre & He' & Hw) | [Hall Hw]].
      * left. exists (e :: pre), e', post.
        repeat split; [constructor; assumption | exact He' | exact Hw].
      * right. split; [constructor; assumption | exact Hw].
Qed.

Lemma whoMerged_loaded (repo : string) (n : Z) (w w' : World) (events : list Event) :
  loadEvents repo n w = Returned events w' ->
  whoMerged repo n w = Returned (whoMerged_range events) w'.
Proof. intros H. unfold whoMerged, bind. rewrite H. reflexivity. Qed.

(** C2.  The tag of a pull request: [TagAuthored] when its author is
    [mpenkov], whatever its state and events; otherwise [TagNone] when its
    state is not "closed"; otherwise [TagMerged] exactly when the login of
    the user [whoMerged] returns is [mpenkov], and [TagNone] when it is not.
    [whoMerged] returns the actor of the first "merged" event of the events
    loaded, or [nobody] when there is none. *)
Theorem classify_correct (repo : string) (p : Pull) (w : World) :
  (Login (Pull_User p) = mpenkov ->
     classify repo p w = Returned TagAuthored w) /\
  (Login (Pull_User p) <> mpenkov -> State p <> "closed" ->
     classify repo p w = Returned TagNone w) /\
  (Login (Pull_User p) <> mpenkov -> State p = "closed" ->
     forall who w', whoMerged repo (Number p) w = Returned who w' ->
       exists tag, classify repo p w = Returned tag w' /\
         (tag = TagMerged /\ Login who = mpenkov \/
          tag = TagNone /\ Login who <> mpenkov)) /\
  (forall n events w', loadEvents repo n w = Returned events w' ->
     exists who, whoMerged repo n w = Returned who w' /\
       first_merged_actor events who).
Proof.
  unfold classify. repeat split.
  - intros ->. reflexivity.
  - intros Hl Hs.
    destruct (String.eqb_spec (Login (Pull_User p)) mpenkov); [done|].
    destruct (String.eqb_spec (State p) "closed"); [done|]. reflexivity.
  - intros Hl Hs who w' Hw.
    destruct (String.eqb_spec (Login (Pull_User p)) mpenkov); [done|].
    destruct (String.eqb_spec (State p) "closed"); [|done].
    unfold bind. rewrite Hw. unfold ret.
    destruct (String.eqb_spec (Login who) mpenkov) as [Hm|Hm].
    + exists TagMerged. split; [reflexivity | left; done].
    + exists TagNone. split; [reflexivity | right; done].
  - intros n events w' Hl. exists (whoMerged_range events).
    split; [apply whoMerged_loaded, Hl | apply whoMerged_range_first].
Qed.

End Classifier.

Lemma classify_correct_witness :
  let w := Fake.demo in
  let w' := emit (EvOpen "cache/octo/demo/events/4.json") w in
  exists tag, classify (lib := Fake.lib) "octo/demo" Fake.p4 w = Returned tag w' /\
    (tag = TagMerged /\ Login (Fake.user "mpenkov") = mpenkov \/
     tag = TagNone /\ Login (Fake.user "mpenkov") <> mpenkov).
Proof.
  intros w w'.
  apply (proj1 (proj2 (proj2
           (classify_correct (lib := Fake.lib) "octo/demo" Fake.p4 w)))).
  - discriminate.
  - reflexivity.
  - vm_compute. reflexivity.
Defined.

(** ** The loop over the pull requests of a page *)

Section Driver.

Context {lib : GoLib}.

Lemma parseTime_parsed (p : Pull) (t : Time) (w : World) :
  time_Parse layout (CreatedAt p) = Some t -> parseTime p w = Returned t w.
Proof. intros H. unfold parseTime. fold layout. rewrite H. reflexivity. Qed.

Lemma visit_visited (repo : string) (p : Pull) (st st' : Tally) (c : Ctl) (w w' : World) :
  visit repo p st w = Returned (c, st') w' -> visited p st c st'.
Proof.
  unfold visit, bind, parseTime.
  destruct (time_Parse _ _) as [t|]; [|discriminate]. unfold ret at 1.
  destruct (Year t >? 2021); [intros [= <- <- _]; constructor|].
  destruct (Year t <? 2021); [intros [= <- <- _]; constructor|].
  destruct (classify _ _ _) as [[| |] w1| | |]; try discriminate;
    unfold append_slice;
    try (destruct (Z.ltb_spec (Z.of_nat (length (pulls st)) + 1) (2 ^ 63));
         [|discriminate]);
    intros [= <- <- _]; constructor; assumption.
Qed.

Lemma visit_done (repo : string) (p : Pull) (st st' : Tally) (c : Ctl) (w w' : World) :
  visit repo p st w = Returned (c, st') w' ->
  match c with Break => done st' = true | Next => done st' = done st end.
Proof. intros H. apply visit_visited in H. destruct H; reflexivity. Qed.

Lemma range_pulls_app (repo : string) (pre rest : list Pull) :
  forall (st st2 : Tally) (w w2 : World),
  range_pulls repo pre st w = Returned st2 w2 ->
  done st = false -> done st2 = false ->
  range_pulls repo (pre ++ rest) st w = range_pulls repo rest st2 w2.
Proof.
  induction pre as [|q pre IH]; intros st st2 w w2; simpl.
  - intros [= <- <-] _ _. reflexivity.
  - unfold bind.
    destruct (visit repo q st w) as [[c st1] w1| | |] eqn:Hv; try discriminate.
    pose proof (visit_done _ _ _ _ _ _ _ Hv) as Hd.
    destruct c.
    + intros Hr Hst Hst2. apply IH; [exact Hr | congruence | exact Hst2].
    + intros [= <- <-] _ Hst2. congruence.
Qed.

Lemma visit_older (repo : string) (p : Pull) (st : Tally) (w : World) (t : Time) :
  time_Parse layout (CreatedAt p) = Some t -> Year t < 2021 ->
  visit repo p st w =
    Returned (Break, {| pulls := pulls st; done := true;
                        authored := authored st; merged := merged st |}) w.
Proof.
  intros Hp Hy. unfold visit, bind. rewrite (parseTime_parsed p t w Hp).
  destruct (Z.gtb_spec (Year t) 2021); [lia|].
  destruct (Z.ltb_spec (Year t) 2021); [reflexivity|lia].
Qed.

Lemma visit_newer (repo : string) (p : Pull) (st : Tally) (w : World) (t : Time) :
  time_Parse layout (CreatedAt p) = Some t -> 2021 < Year t ->
  visit repo p st w = Returned (Next, st) w.
Proof.
  intros Hp Hy. unfold visit, bind. rewrite (parseTime_parsed p t w Hp).
  destruct (Z.gtb_spec (Year t) 2021); [reflexivity|lia].
Qed.

(** C3.  Let the sorted page be [pre ++ p :: post], and let the visits of
    [pre] return the tally [st2] without stopping.  When the year of [p] is
    below 2021, the loop over the pages returns [st2] with [done] set, in
    the world the visits of [pre] left: [p], [post] and every later page
    add nothing, and no other page is loaded.  When the year of [p] is
    above 2021, [p] changes nothing and the visits go on with [post]. *)
Theorem year_cutoff
    (fuel : nat) (repo : string) (page : Z) (st st2 : Tally) (w w1 w2 : World)
    (pagePulls pre post : list Pull) (p : Pull) (t : Time) :
  done st = false ->
  loadPulls repo page w = Returned pagePulls w1 ->
  pagePulls <> [] ->
  sort_Sort pagePulls = (pre ++ p :: post)%list ->
  range_pulls repo pre st w1 = Returned st2 w2 ->
  done st2 = false ->
  time_Parse layout (CreatedAt p) = Some t ->
  (Year t < 2021 ->
     pages (S fuel) repo page st w =
       Returned {| pulls := pulls st2; done := true;
                   authored := authored st2; merged := merged st2 |} w2) /\
  (2021 < Year t ->
     range_pulls repo (sort_Sort pagePulls) st w1 = range_pulls repo post st2 w2).
Proof.
  intros Hd Hl Hne Hs Hpre Hd2 Hp. split; intros Hy.
  - simpl. rewrite Hd. unfold bind at 1. rewrite Hl.
    destruct pagePulls as [|q qs]; [done|].
    cbn [length].
    replace (Z.of_nat (S (length qs)) =? 0) with false
      by (symmetry; apply Z.eqb_neq; lia).
    unfold bind at 1.
    rewrite Hs, (range_pulls_app repo pre (p :: post) st st2 w1 w2 Hpre Hd Hd2).
    simpl. unfold bind at 1. rewrite (visit_older repo p st2 w2 t Hp Hy).
    unfold ret at 1. destruct fuel; reflexivity.
  - rewrite Hs, (range_pulls_app repo pre (p :: post) st st2 w1 w2 Hpre Hd Hd2).
    simpl. unfold bind at 1. rewrite (visit_newer repo p st2 w2 t Hp Hy).
    reflexivity.
Qed.

End Driver.

Lemma year_cutoff_witness :
  let w := Fake.aged in
  let w1 := emit (EvOpen "cache/octo/demo/pulls/1.json") w in
  pages (lib := Fake.lib) 1 "octo/demo" 1 Tally_init w =
    Returned {| pulls := []; done := true; authored := 0; merged := 0 |} w1.
Proof.
  intros w w1.
  apply (proj1 (year_cutoff (lib := Fake.lib) 0 "octo/demo" 1 Tally_init Tally_init
                  w w1 w1 [Fake.p7; Fake.p9; Fake.p8] [Fake.p9] [Fake.p7] Fake.p8
                  (2020, 12, 31) eq_refl ltac:(vm_compute; reflexivity)
                  ltac:(discriminate) ltac:(vm_compute; reflexivity)
                  ltac:(vm_compute; reflexivity) eq_refl
                  ltac:(vm_compute; reflexivity))).
  vm_compute. reflexivity.
Defined.

(** ** Sorting a page *)

Lemma index_Some {A} (l : list A) (i : Z) (a : A) :
  index l i = Some a <-> 0 <= i /\ l !! Z.to_nat i = Some a.
Proof.
  unfold index. destruct (Z.leb_spec 0 i).
  - split; [intros Hl; split; [lia | exact Hl] | intros [_ Hl]; exact Hl].
  - split; [discriminate | intros [? _]; lia].
Qed.







Section Sorting.

Context {lib : GoLib}.



End Sorting.


(** ** The counters of a result *)

Lemma reports_emit (e : IOEvent) (w : World) :
  reports (emit e w) = (reports w ++ from_option (fun r => [r]) [] (report_of e))%list.
Proof.
  unfold reports, emit; simpl. rewrite omap_app. simpl.
  destruct (report_of e); reflexivity.
Qed.

Lemma quiet_ret {A} (a : A) : quiet (ret a).
Proof. intros w wf [= <-]. reflexivity. Qed.

Lemma quiet_log_Fatal {A} (msg : string) : quiet (@log_Fatal A msg).
Proof. intros w wf [= <-]. reflexivity. Qed.

Lemma quiet_panic {A} : quiet (@panic A).
Proof. intros w wf [= <-]. reflexivity. Qed.

Lemma quiet_bind {A B} (c : M A) (k : A -> M B) :
  quiet c -> (forall a, quiet (k a)) -> quiet (bind c k).
Proof.
  intros Hc Hk w wf. unfold bind.
  destruct (c w) as [a w1|msg w1|w1|] eqn:Hcw; simpl.
  - intros H. rewrite (Hk a w1 wf H). apply Hc. rewrite Hcw. reflexivity.
  - intros [= <-]. apply Hc. rewrite Hcw. reflexivity.
  - intros [= <-]. apply Hc. rewrite Hcw. reflexivity.
  - discriminate.
Qed.

Lemma quiet_io (e : IOEvent) : report_of e = None -> quiet (io e).
Proof.
  intros He w wf [= <-]. rewrite reports_emit, He. apply app_nil_r.
Qed.

Lemma quiet_os_Open (path : string) : quiet (os_Open path).
Proof. intros w wf [= <-]. rewrite reports_emit. apply app_nil_r. Qed.

Lemma quiet_http_Get (url : string) : quiet (http_Get url).
Proof. intros w wf [= <-]. rewrite reports_emit. apply app_nil_r. Qed.

Lemma quiet_os_MkdirAll (path : string) : quiet (os_MkdirAll path).
Proof.
  intros w wf. unfold os_MkdirAll.
  destruct (String.eqb path ""); [|destruct (mkdirs _ _) as [m err]];
    intros [= <-]; unfold set_fs, reports; simpl;
    rewrite omap_app; apply app_nil_r.
Qed.

Lemma quiet_os_WriteFile (path : string) (data : bytes) : quiet (os_WriteFile path data).
Proof.
  intros w wf. unfold os_WriteFile.
  destruct (fs w !! path) as [[d|]|]; try destruct (_ || _);
    intros [= <-]; unfold set_fs, reports; simpl;
    rewrite omap_app; apply app_nil_r.
Qed.

Lemma quiet_append_slice {A} (s : list A) (x : A) : quiet (append_slice s x).
Proof.
  intros w wf. unfold append_slice.
  destruct (_ <? _); intros [= <-]; reflexivity.
Qed.

Create HintDb quiet.

#[local] Hint Resolve quiet_ret quiet_log_Fatal quiet_panic quiet_os_Open
  quiet_append_slice
  quiet_http_Get quiet_os_MkdirAll quiet_os_WriteFile : quiet.

(** Split a computation along its [bind]s and its case distinctions. *)
Ltac quiet_step :=
  match goal with
  | |- quiet (bind _ _) => apply quiet_bind; [|intros ?]
  | |- quiet (io _) => apply quiet_io; reflexivity
  | |- quiet (log_Printf _) => apply quiet_io; reflexivity
  | |- quiet (time_Sleep _) => apply quiet_io; reflexivity
  | |- quiet (match ?x with _ => _ end) => destruct x
  | |- quiet _ => solve [auto with quiet]
  end.

Ltac quiet_all := repeat quiet_step.

Lemma quiet_readCache (path : string) : quiet (readCache path).
Proof. unfold readCache. quiet_all. Qed.

Lemma quiet_writeCache (path : string) (data : bytes) : quiet (writeCache path data).
Proof. unfold writeCache. quiet_all. Qed.

Lemma quiet_httpGet (url : string) : quiet (httpGet url).
Proof. unfold httpGet. quiet_all. Qed.

#[local] Hint Resolve quiet_readCache quiet_writeCache quiet_httpGet : quiet.

Lemma incr_small (x : Z) : 0 <= x -> x + 1 < 2 ^ 63 -> incr x = x + 1.
Proof.
  intros H0 H1. unfold incr, wrap64.
  rewrite Z.mod_small; lia.
Qed.

Lemma visited_ok (p : Pull) (st st' : Tally) (c : Ctl) :
  visited p st c st' -> tally_ok st -> tally_ok st'.
Proof.
  unfold tally_ok. intros Hv (Ha & Hm & Hsum & Hlen).
  destruct Hv; simpl; rewrite ?length_app; simpl;
    rewrite ?incr_small by lia; lia.
Qed.

Section Counters.

Context {lib : GoLib}.

Lemma quiet_loadPulls (repo : string) (page : Z) : quiet (loadPulls repo page).
Proof. unfold loadPulls. quiet_all. Qed.

Lemma quiet_loadEvents (repo : string) (n : Z) : quiet (loadEvents repo n).
Proof. unfold loadEvents. quiet_all. Qed.

Lemma quiet_loadCommit (repo sha : string) : quiet (loadCommit repo sha).
Proof. unfold loadCommit. quiet_all. Qed.

Lemma quiet_visit (repo : string) (p : Pull) (st : Tally) : quiet (visit repo p st).
Proof.
  pose proof quiet_loadEvents.
  unfold visit, parseTime, classify, whoMerged. cbv zeta. quiet_all.
Qed.

Lemma quiet_range_pulls (repo : string) (l : list Pull) (st : Tally) :
  quiet (range_pulls repo l st).
Proof.
  revert st. induction l as [|p l IH]; intros st; simpl.
  - apply quiet_ret.
  - apply quiet_bind; [apply quiet_visit|].
    intros [[|] st']; [apply IH | apply quiet_ret].
Qed.

Lemma quiet_pages (fuel : nat) (repo : string) :
  forall (page : Z) (st : Tally), quiet (pages fuel repo page st).
Proof.
  induction fuel as [|fuel IH]; intros page st; simpl.
  - destruct (done st); [apply quiet_ret | intros w wf; discriminate].
  - destruct (done st); [apply quiet_ret|].
    apply quiet_bind; [apply quiet_loadPulls|]. intros pagePulls.
    destruct (_ =? 0); [apply quiet_ret|].
    apply quiet_bind; [apply quiet_range_pulls | intros st'; apply IH].
Qed.

Lemma range_pulls_ok (repo : string) (l : list Pull) :
  forall (st st' : Tally) (w w' : World),
  range_pulls repo l st w = Returned st' w' -> tally_ok st -> tally_ok st'.
Proof.
  induction l as [|p l IH]; intros st st' w w'; simpl.
  - intros [= <- _]. auto.
  - unfold bind.
    destruct (visit repo p st w) as [[c st1] w1| | |] eqn:Hv; try discriminate.
    apply visit_visited in Hv. intros Hr Hok.
    pose proof (visited_ok _ _ _ _ Hv Hok) as Hok1.
    destruct c; [eapply IH; eauto | injection Hr as <- _; exact Hok1].
Qed.

Lemma pages_ok (fuel : nat) (repo : string) :
  forall (page : Z) (st st' : Tally) (w w' : World),
  pages fuel repo page st w = Returned st' w' -> tally_ok st -> tally_ok st'.
Proof.
  induction fuel as [|fuel IH]; intros page st st' w w'; simpl.
  - destruct (done st); [intros [= <- _]; auto | discriminate].
  - destruct (done st); [intros [= <- _]; auto|].
    unfold bind.
    destruct (loadPulls repo page w) as [pagePulls w1| | |]; try discriminate.
    destruct (_ =? 0); [intros [= <- _]; auto|].
    destruct (range_pulls _ _ _ _) as [st1 w2| | |] eqn:Hr; try discriminate.
    intros Hp Hok. eapply IH; [exact Hp|]. eapply range_pulls_ok; eauto.
Qed.

Lemma Tally_init_ok : tally_ok Tally_init.
Proof. unfold tally_ok. simpl. lia. Qed.

Lemma result_of_counted (repo : string) (st : Tally) :
  tally_ok st -> counted (result_of repo st).
Proof. intros Hok. apply Hok. Qed.

(** Whatever a run over one repository leaves, it handed the renderer
    nothing, or one result whose counters add up. *)
Lemma report_repo_reports (fuel : nat) (repo : string) (w wf : World) :
  world_of (report_repo fuel repo w) = Some wf ->
  reports wf = reports w \/
  exists r, reports wf = (reports w ++ [r])%list /\ counted r.
Proof.
  unfold report_repo, bind.
  destruct (pages fuel repo 1 Tally_init w) as [st w1|msg w1|w1|] eqn:Hp; simpl.
  - assert (reports w1 = reports w) as Hq
        by (apply (quiet_pages fuel repo 1 Tally_init); rewrite Hp; reflexivity).
    unfold io.
    assert (reports wf = reports (emit (EvReport (result_of repo st)) w1) ->
            reports wf = reports w \/
            exists r, reports wf = (reports w ++ [r])%list /\ counted r)
      as Hgoal.
    { rewrite reports_emit, Hq. simpl. intros ->. right.
      eexists. split; [reflexivity|].
      apply result_of_counted, (pages_ok _ _ _ _ _ _ _ Hp), Tally_init_ok. }
    destruct (report_Execute _); intros [= <-]; apply Hgoal; reflexivity.
  - intros [= <-]. left.
    apply (quiet_pages fuel repo 1 Tally_init). rewrite Hp. reflexivity.
  - intros [= <-]. left.
    apply (quiet_pages fuel repo 1 Tally_init). rewrite Hp. reflexivity.
  - discriminate.
Qed.

Lemma range_repos_reports (fuel : nat) (repos : list string) :
  forall (w wf : World),
  world_of (range_repos fuel repos w) = Some wf ->
  Forall counted (reports w) -> Forall counted (reports wf).
Proof.
  induction repos as [|repo repos IH]; intros w wf; simpl.
  - intros [= <-]. auto.
  - unfold bind.
    destruct (report_repo fuel repo w) as [[] w1|msg w1|w1|] eqn:Hr; simpl;
      try discriminate; intros Hwf Hall;
      assert (Forall counted (reports w1)) as Hall1
        by (destruct (report_repo_reports fuel repo w w1) as [->|(r & -> & Hc)];
            [rewrite Hr; reflexivity | exact Hall
            | apply Forall_app; split; [exact Hall | repeat constructor; exact Hc]]).
    + eapply IH; eauto.
    + injection Hwf as <-. exact Hall1.
    + injection Hwf as <-. exact Hall1.
Qed.

(** C9.  Every result [main] hands to the renderer has counters that add
    up to the number of its pull requests.  A visit that returns appends
    nothing and counts nothing, or appends one pull request and increments
    one counter; a pull request of 2021 with the tag [TagNone] is neither
    appended nor counted. *)
Theorem reports_counted
    (fuel : nat) (header : string) (Args : list string) (w wf : World) :
  world_of (main fuel header Args w) = Some wf ->
  Forall counted (reports w) ->
  Forall counted (reports wf) /\
  (forall repo p st c st' w0 w1,
     visit repo p st w0 = Returned (c, st') w1 -> visited p st c st') /\
  (forall repo p st t w0 w1,
     time_Parse layout (CreatedAt p) = Some t -> Year t = 2021 ->
     classify repo (set_Timestamp p (Format t "2006-01-02")) w0 = Returned TagNone w1 ->
     visit repo p st w0 = Returned (Next, st) w1).
Proof.
  intros Hm Hall. repeat split.
  - revert Hm. unfold main. destruct Args as [|arg0 repos]; simpl.
    + intros [= <-]. exact Hall.
    + unfold bind, io. intros Hm. eapply range_repos_reports; [exact Hm|].
      rewrite reports_emit. simpl. rewrite app_nil_r. exact Hall.
  - intros repo p st c st' w0 w1. apply visit_visited.
  - intros repo p st t w0 w1 Hp Hy Hc.
    unfold visit, bind. rewrite (parseTime_parsed p t w0 Hp).
    destruct (Z.gtb_spec (Year t) 2021); [lia|].
    destruct (Z.ltb_spec (Year t) 2021); [lia|].
    rewrite Hc. reflexivity.
Qed.

End Counters.

Lemma reports_counted_witness :
  let w := Fake.demo in
  let wf := world_after (main (lib := Fake.lib) 5 "<html>" ["ghreview"; "octo/demo"] w) w in
  Forall counted (reports wf) /\
  reports wf = [ {| Name := "octo/demo";
                    Pulls := [ set_MyContribution (set_Timestamp Fake.p5 "2021-03-01") "authored";
                               set_MyContribution (set_Timestamp Fake.p4 "2021-02-01") "merged" ];
                    Authored := 1; Merged := 1 |} ].
Proof.
  intros w wf. split.
  - apply (proj1 (reports_counted (lib := Fake.lib) 5 "<html>"
                    ["ghreview"; "octo/demo"] w wf
                    ltac:(vm_compute; reflexivity) ltac:(constructor))).
  - vm_compute. reflexivity.
Defined.

(** ** The slice in [writeCache] *)

Lemma prefix_slash_cons (c : ascii) (s : string) :
  String.prefix "/" (String c s) = if ascii_dec "/" c then true else false.
Proof. destruct s; reflexivity. Qed.

Lemma last_index_from_bounds (s sep : string) :
  forall i, 0 <= i ->
  last_index_from s sep i = -1 \/
  i <= last_index_from s sep i <= i + len_s s.
Proof.
  unfold len_s. induction s as [|c s IH]; intros i Hi; cbn [String.length last_index_from].
  - destruct (String.prefix sep ""); [right; lia | left; reflexivity].
  - destruct (IH (i + 1) ltac:(lia)) as [Hr | Hr].
    + rewrite Hr. change (0 <=? -1) with false. cbv iota.
      destruct (String.prefix sep (String c s)); [right; lia | left; reflexivity].
    + destruct (Z.leb_spec 0 (last_index_from s sep (i + 1))); [right; lia | lia].
Qed.

Lemma last_index_from_later (c : ascii) (s sep : string) (i : Z) :
  0 <= last_index_from s sep (i + 1) ->
  0 <= last_index_from (String c s) sep i.
Proof.
  intros H. cbn [last_index_from].
  destruct (Z.leb_spec 0 (last_index_from s sep (i + 1))); lia.
Qed.

Lemma last_index_from_here (s : string) (i : Z) :
  0 <= i -> 0 <= last_index_from (String "/"%char s) "/" i.
Proof.
  intros Hi. cbn [last_index_from].
  destruct (Z.leb_spec 0 (last_index_from s "/" (i + 1))); [lia|].
  rewrite prefix_slash_cons.
  destruct (ascii_dec "/" "/"); [lia | congruence].
Qed.

Lemma last_index_from_slash_free (s : string) :
  forall i, slash_free s -> last_index_from s "/" i = -1.
Proof.
  unfold slash_free. induction s as [|c s IH]; intros i Hs; [reflexivity|].
  cbn [last_index_from]. cbn [list_ascii_of_string In] in Hs.
  rewrite IH by tauto. change (0 <=? -1) with false. cbv iota.
  rewrite prefix_slash_cons.
  destruct (ascii_dec "/" c) as [<-|]; [tauto | reflexivity].
Qed.

Lemma last_index_from_slash (s : string) :
  forall i, 0 <= i -> ~ slash_free s -> 0 <= last_index_from s "/" i.
Proof.
  unfold slash_free. induction s as [|c s IH]; intros i Hi Hs;
    cbn [list_ascii_of_string In] in Hs.
  - tauto.
  - destruct (ascii_dec c "/") as [->|Hne].
    + apply last_index_from_here, Hi.
    + apply last_index_from_later, IH; [lia | tauto].
Qed.

Lemma classic_slash (s : string) : slash_free s \/ ~ slash_free s.
Proof.
  unfold slash_free.
  destruct (in_dec ascii_dec "/"%char (list_ascii_of_string s)); tauto.
Qed.

Lemma slice_at_LastIndex (path : string) :
  slice_to path (strings_LastIndex path "/") = None <-> slash_free path.
Proof.
  unfold slice_to, strings_LastIndex. split.
  - intros H. destruct (classic_slash path) as [Hf|Hs]; [exact Hf|].
    pose proof (last_index_from_slash path 0 ltac:(lia) Hs).
    destruct (last_index_from_bounds path "/" 0 ltac:(lia)) as [?|?]; [lia|].
    destruct (Z.leb_spec 0 (last_index_from path "/" 0)); [|lia].
    destruct (Z.leb_spec (last_index_from path "/" 0) (len_s path)); [discriminate | lia].
  - intros Hf. rewrite (last_index_from_slash_free path 0 Hf). reflexivity.
Qed.

Lemma calm_ret {A} (a : A) : calm (ret a).
Proof. intros w w'. discriminate. Qed.

Lemma calm_log_Fatal {A} (msg : string) : calm (@log_Fatal A msg).
Proof. intros w w'. discriminate. Qed.

Lemma calm_io (e : IOEvent) : calm (io e).
Proof. intros w w'. discriminate. Qed.

Lemma calm_os_Open (path : string) : calm (os_Open path).
Proof. intros w w'. discriminate. Qed.

Lemma calm_http_Get (url : string) : calm (http_Get url).
Proof. intros w w'. discriminate. Qed.

Lemma calm_os_MkdirAll (path : string) : calm (os_MkdirAll path).
Proof.
  intros w w'. unfold os_MkdirAll.
  destruct (String.eqb path ""); [|destruct (mkdirs _ _)]; discriminate.
Qed.

Lemma calm_os_WriteFile (path : string) (data : bytes) : calm (os_WriteFile path data).
Proof.
  intros w w'. unfold os_WriteFile.
  destruct (fs w !! path) as [[d|]|]; try destruct (_ || _); discriminate.
Qed.

Lemma calm_bind {A B} (c : M A) (k : A -> M B) :
  calm c -> (forall a, calm (k a)) -> calm (bind c k).
Proof.
  intros Hc Hk w w'. unfold bind.
  destruct (c w) as [a w1|msg w1|w1|] eqn:Hcw; try discriminate.
  - apply Hk.
  - destruct (Hc w w1 Hcw).
Qed.

Create HintDb calm.

#[local] Hint Resolve calm_ret calm_log_Fatal calm_io calm_os_Open
  calm_http_Get calm_os_MkdirAll calm_os_WriteFile : calm.

Ltac calm_step :=
  match goal with
  | |- calm (bind _ _) => apply calm_bind; [|intros ?]
  | |- calm (log_Printf _) => apply calm_io
  | |- calm (time_Sleep _) => apply calm_io
  | |- calm (match ?x with _ => _ end) => destruct x
  | |- calm _ => solve [auto with calm]
  end.

Ltac calm_all := repeat calm_step.

Lemma calm_readCache (path : string) : calm (readCache path).
Proof. unfold readCache. calm_all. Qed.

Lemma calm_httpGet (url : string) : calm (httpGet url).
Proof. unfold httpGet. calm_all. Qed.

Lemma LastIndex_in_bounds (path : string) :
  ~ slash_free path -> 0 <= strings_LastIndex path "/" <= len_s path.
Proof.
  intros Hs. unfold strings_LastIndex.
  pose proof (last_index_from_slash path 0 ltac:(lia) Hs).
  destruct (last_index_from_bounds path "/" 0 ltac:(lia)); lia.
Qed.

Lemma calm_writeCache (path : string) (data : bytes) :
  ~ slash_free path -> calm (writeCache path data).
Proof.
  intros Hs. unfold writeCache.
  destruct (slice_to _ _) as [subdir|] eqn:Hsl.
  - calm_all.
  - apply slice_at_LastIndex in Hsl. contradiction.
Qed.

Lemma writeCache_slash_free (path : string) (data : bytes) (w : World) :
  slash_free path -> writeCache path data w = Panic w.
Proof.
  intros Hs. unfold writeCache.
  rewrite (proj2 (slice_at_LastIndex path) Hs). reflexivity.
Qed.

Lemma cache_path_slash (rest : string) : ~ slash_free ("cache/" +:+ rest).
Proof.
  intros H. apply H. cbn [String.append list_ascii_of_string In].
  do 5 right. left. reflexivity.
Qed.

Section Slices.

Context {lib : GoLib}.

Lemma calm_loadPulls (repo : string) (page : Z) : calm (loadPulls repo page).
Proof.
  pose proof (fun data => calm_writeCache _ data (cache_path_slash (repo +:+ "/pulls/" +:+ itoa page +:+ ".json"))).
  pose proof calm_readCache. pose proof calm_httpGet.
  unfold loadPulls, pulls_path. calm_all.
Qed.

Lemma calm_loadEvents (repo : string) (n : Z) : calm (loadEvents repo n).
Proof.
  pose proof (fun data => calm_writeCache _ data (cache_path_slash (repo +:+ "/events/" +:+ itoa n +:+ ".json"))).
  pose proof calm_readCache. pose proof calm_httpGet.
  unfold loadEvents, events_path. calm_all.
Qed.

Lemma calm_loadCommit (repo sha : string) : calm (loadCommit repo sha).
Proof.
  pose proof (fun data => calm_writeCache _ data (cache_path_slash (repo +:+ "/commits/" +:+ sha +:+ ".json"))).
  pose proof calm_readCache. pose proof calm_httpGet.
  unfold loadCommit, commits_path. calm_all.
Qed.

(** C10.  On a path without ['/'] [writeCache] panics at its slice.  On a
    path with a ['/'] the index [strings.LastIndex] gives is within the
    path and [writeCache] does not panic.  The three paths the loaders
    build have a ['/'], and no loader panics. *)
Theorem writeCache_needs_slash :
  (forall path data w, slash_free path -> writeCache path data w = Panic w) /\
  (forall path data, ~ slash_free path ->
     0 <= strings_LastIndex path "/" <= len_s path /\
     calm (writeCache path data)) /\
  (forall repo sha n,
     ~ slash_free (pulls_path repo n) /\
     ~ slash_free (events_path repo n) /\
     ~ slash_free (commits_path repo sha)) /\
  (forall repo sha n,
     calm (loadPulls repo n) /\ calm (loadEvents repo n) /\
     calm (loadCommit repo sha)).
Proof.
  split; [|split; [|split]].
  - apply writeCache_slash_free.
  - intros path data Hs.
    split; [apply LastIndex_in_bounds, Hs | apply calm_writeCache, Hs].
  - intros repo sha n. repeat split; apply cache_path_slash.
  - intros repo sha n.
    repeat split; [apply calm_loadPulls | apply calm_loadEvents | apply calm_loadCommit].
Qed.

End Slices.

Lemma writeCache_needs_slash_witness :
  writeCache "pulls.json" (list_byte_of_string Fake.doc_empty) Fake.demo
    = Panic Fake.demo.
Proof.
  apply (proj1 (writeCache_needs_slash (lib := Fake.lib))).
  unfold slash_free. cbn [list_ascii_of_string In].
  intros H. repeat (destruct H as [H|H]; [discriminate H|]). exact H.
Defined.

(** * Further properties *)

(** ** The loaders on a cache miss *)

Lemma readCache_miss (path : string) (w : World) :
  cache_miss path w -> readCache path w = Returned None (emit (EvOpen path) w).
Proof.
  intros Hm. unfold readCache, bind, os_Open.
  destruct (fs w !! path) as [[data|]|] eqn:Hd; try reflexivity.
  destruct (Hm data Hd).
Qed.

Lemma remote_calls_set_fs (m : gmap string Node) (w : World) :
  remote_calls (set_fs m w) = remote_calls w.
Proof. reflexivity. Qed.

(** A write to the cache calls nothing remote and leaves the network as it
    is, however it ends. *)
Lemma writeCache_frame (path : string) (b : bytes) (w wf : World) :
  world_of (writeCache path b w) = Some wf ->
  remote_calls wf = remote_calls w /\ net wf = net w.
Proof.
  unfold writeCache, bind, os_MkdirAll, os_WriteFile, log_Fatal, ret, panic.
  intros H. repeat (case_match; simplify_eq/=); split; try reflexivity;
    repeat first [rewrite remote_calls_set_fs | rewrite remote_calls_emit];
    simpl; rewrite ?app_nil_r; reflexivity.
Qed.

Lemma remote_calls_fetched (path url : string) (w : World) :
  remote_calls (fetched path url w)
  = (remote_calls w ++ [EvGet url; EvSleep 5000])%list.
Proof.
  unfold fetched. rewrite !remote_calls_emit. simpl.
  rewrite !app_nil_r, <- app_assoc. reflexivity.
Qed.

Section Shared.

Context {T : Type} (unmarshal : bytes -> T -> T * option string) (zero : T).
Context (path url : string).

Local Abbreviation load := (load_shared unmarshal zero path url).

Lemma load_shared_hit (w : World) (data : bytes) :
  fs w !! path = Some (File data) ->
  load w = Returned (unmarshal data zero).1 (emit (EvOpen path) w).
Proof.
  intros H. unfold load_shared, bind. rewrite (readCache_file path data w H).
  reflexivity.
Qed.

(** What a load does after a miss, by what the network answers. *)
Lemma load_shared_miss (w : World) :
  cache_miss path w ->
  load w =
    match net w url with
    | TransportError err =>
        Fatal err (emit (EvGet url)
                     (emit (EvLog ("cache miss, reading " +:+ url +:+ " from the wire"))
                        (emit (EvOpen path) w)))
    | Answer resp =>
        if StatusCode resp >? 299
        then Fatal ("HTTP " +:+ itoa (StatusCode resp))
               (emit (EvGet url)
                  (emit (EvLog ("cache miss, reading " +:+ url +:+ " from the wire"))
                     (emit (EvOpen path) w)))
        else
          match writeCache path (Body resp).1 (fetched path url w) with
          | Returned _ w3 =>
              match unmarshal (Body resp).1 zero with
              | (_, Some err) => Fatal ("JSON unmarshalling failed: " +:+ err) w3
              | (v, None) => Returned v w3
              end
          | Fatal msg w3 => Fatal msg w3
          | Panic w3 => Panic w3
          | OutOfFuel => OutOfFuel
          end
    end.
Proof.
  intros Hm. unfold load_shared, bind at 1. rewrite (readCache_miss path w Hm).
  unfold bind at 1, log_Printf, io. unfold bind at 1.
  unfold httpGet, bind at 1, http_Get. cbn [net emit].
  destruct (net w url) as [err|resp]; [reflexivity|].
  destruct (StatusCode resp >? 299); [reflexivity|].
  unfold bind at 1, time_Sleep, io, ret at 1. unfold bind at 1. fold (fetched path url w).
  destruct (writeCache _ _ _) as [[] w3| | |]; try reflexivity.
  destruct (unmarshal _ _) as [v [err|]]; reflexivity.
Qed.

Lemma load_shared_returned (w w1 : World) (v : T) :
  cache_miss path w -> load w = Returned v w1 ->
  exists resp,
    net w url = Answer resp /\ StatusCode resp <= 299 /\
    writeCache path (Body resp).1 (fetched path url w) = Returned tt w1 /\
    unmarshal (Body resp).1 zero = (v, None).
Proof.
  intros Hm. rewrite (load_shared_miss w Hm).
  destruct (net w url) as [err|resp] eqn:Hn; [discriminate|].
  destruct (Z.gtb_spec (StatusCode resp) 299); [discriminate|].
  destruct (writeCache _ _ _) as [[] w3| | |] eqn:Hw; try discriminate.
  destruct (unmarshal _ _) as [v' [err|]] eqn:Hu; [discriminate|].
  intros [= <- <-]. exists resp. split; [reflexivity|].
  split; [lia|]. split; [exact Hw | exact Hu].
Qed.

Lemma load_shared_refills : refills load path.
Proof.
  intros w v w1 Hm Hl.
  destruct (load_shared_returned w w1 v Hm Hl) as (resp & Hn & Hs & Hw & Hu).
  exists (Body resp).1. pose proof (writeCache_stores _ _ _ _ Hw) as Hf.
  split; [exact Hf|]. split.
  - rewrite (load_shared_hit w1 _ Hf), Hu. reflexivity.
  - rewrite remote_calls_emit. apply app_nil_r.
Qed.

Lemma load_shared_fetches_once : fetches_once load path url.
Proof.
  intros w v w1 Hm Hl.
  destruct (load_shared_returned w w1 v Hm Hl) as (resp & Hn & Hs & Hw & Hu).
  destruct (writeCache_frame path (Body resp).1 (fetched path url w) w1) as [-> _].
  - rewrite Hw. reflexivity.
  - apply remote_calls_fetched.
Qed.

Lemma load_shared_stores_before_decoding :
  stores_before_decoding unmarshal zero load path url.
Proof.
  intros w resp w3 v err Hm Hn Hs Hw Hu.
  pose proof (writeCache_stores _ _ _ _ Hw) as Hf.
  split; [|split; [exact Hf|]].
  - rewrite (load_shared_miss w Hm), Hn.
    destruct (Z.gtb_spec (StatusCode resp) 299); [lia|].
    rewrite Hw, Hu. reflexivity.
  - rewrite (load_shared_hit w3 _ Hf), Hu. reflexivity.
Qed.

Lemma load_shared_dies_on_failed_fetch : dies_on_failed_fetch load path url.
Proof.
  intros w Hm Hbad. rewrite (load_shared_miss w Hm).
  destruct (net w url) as [err|resp] eqn:Hn.
  - eexists _, _. split; [reflexivity|]. split; [reflexivity|].
    rewrite !remote_calls_emit. simpl. rewrite !app_nil_r. reflexivity.
  - specialize (Hbad resp eq_refl).
    destruct (Z.gtb_spec (StatusCode resp) 299); [|lia].
    eexists _, _. split; [reflexivity|]. split; [reflexivity|].
    rewrite !remote_calls_emit. simpl. rewrite !app_nil_r. reflexivity.
Qed.

End Shared.

Section LoadersMiss.

Context {lib : GoLib}.

Lemma loadPulls_shared (repo : string) (page : Z) :
  loadPulls repo page
  = load_shared json_Unmarshal_Pulls [] (pulls_path repo page) (pulls_url repo page).
Proof. reflexivity. Qed.

Lemma loadEvents_shared (repo : string) (n : Z) :
  loadEvents repo n
  = load_shared json_Unmarshal_Events [] (events_path repo n) (events_url repo n).
Proof. reflexivity. Qed.

Lemma loadCommit_shared (repo sha : string) :
  loadCommit repo sha
  = load_shared json_Unmarshal_Commit {| Author := {| Login := "" |} |}
      (commits_path repo sha) (commits_url repo sha).
Proof. reflexivity. Qed.

(** X1.  After a cache miss, a loader that returns has stored the answer
    under its path: called again, it returns the same value from the cache,
    without a request and without a sleep. *)
Theorem loaders_refill (repo sha : string) (n : Z) :
  refills (loadPulls repo n) (pulls_path repo n) /\
  refills (loadEvents repo n) (events_path repo n) /\
  refills (loadCommit repo sha) (commits_path repo sha).
Proof.
  rewrite loadPulls_shared, loadEvents_shared, loadCommit_shared.
  split; [|split]; apply load_shared_refills.
Qed.

(** X2.  After a cache miss, a loader that returns has made exactly one
    request, to the address of its resource, and has slept once, for
    5000 ms. *)
Theorem loaders_fetch_once (repo sha : string) (n : Z) :
  fetches_once (loadPulls repo n) (pulls_path repo n) (pulls_url repo n) /\
  fetches_once (loadEvents repo n) (events_path repo n) (events_url repo n) /\
  fetches_once (loadCommit repo sha) (commits_path repo sha) (commits_url repo sha).
Proof.
  rewrite loadPulls_shared, loadEvents_shared, loadCommit_shared.
  split; [|split]; apply load_shared_fetches_once.
Qed.

(** X3.  The loaders write the answer to the cache before they decode it:
    when the answer does not decode, the process ends with the message
    [JSON unmarshalling failed], the answer stays in the cache, and the same
    loader, run on what was left, no longer fails: it returns what the
    decoder left in the variable. *)
Theorem loaders_store_before_decoding (repo sha : string) (n : Z) :
  stores_before_decoding json_Unmarshal_Pulls []
    (loadPulls repo n) (pulls_path repo n) (pulls_url repo n) /\
  stores_before_decoding json_Unmarshal_Events []
    (loadEvents repo n) (events_path repo n) (events_url repo n) /\
  stores_before_decoding json_Unmarshal_Commit {| Author := {| Login := "" |} |}
    (loadCommit repo sha) (commits_path repo sha) (commits_url repo sha).
Proof.
  rewrite loadPulls_shared, loadEvents_shared, loadCommit_shared.
  split; [|split]; apply load_shared_stores_before_decoding.
Qed.

(** X4.  After a cache miss, a request that fails in transport, or whose
    answer has a status above 299, ends the process inside the loader: the
    files are as they were, one request was made and nothing slept. *)
Theorem loaders_die_on_failed_fetch (repo sha : string) (n : Z) :
  dies_on_failed_fetch (loadPulls repo n) (pulls_path repo n) (pulls_url repo n) /\
  dies_on_failed_fetch (loadEvents repo n) (events_path repo n) (events_url repo n) /\
  dies_on_failed_fetch (loadCommit repo sha) (commits_path repo sha) (commits_url repo sha).
Proof.
  rewrite loadPulls_shared, loadEvents_shared, loadCommit_shared.
  split; [|split]; apply load_shared_dies_on_failed_fetch.
Qed.

End LoadersMiss.

Lemma loaders_refill_witness :
  let w := Fake.world [] Fake.serving in
  let w1 := world_after (loadPulls (lib := Fake.lib) "octo/demo" 1 w) w in
  exists body,
    fs w1 !! "cache/octo/demo/pulls/1.json" = Some (File body) /\
    loadPulls (lib := Fake.lib) "octo/demo" 1 w1
      = Returned [Fake.p4; Fake.p5] (emit (EvOpen "cache/octo/demo/pulls/1.json") w1) /\
    remote_calls (emit (EvOpen "cache/octo/demo/pulls/1.json") w1) = remote_calls w1.
Proof.
  intros w w1.
  apply (proj1 (loaders_refill (lib := Fake.lib) "octo/demo" "" 1) w [Fake.p4; Fake.p5] w1).
  - intros b H. vm_compute in H. discriminate H.
  - vm_compute. reflexivity.
Defined.

Lemma loaders_fetch_once_witness :
  let w := Fake.world [] Fake.serving in
  let w1 := world_after (loadPulls (lib := Fake.lib) "octo/demo" 1 w) w in
  remote_calls w1 =
    [EvGet "https://api.github.com/repos/octo/demo/pulls?state=all&page=1";
     EvSleep 5000].
Proof.
  intros w w1.
  apply (proj1 (loaders_fetch_once (lib := Fake.lib) "octo/demo" "" 1) w [Fake.p4; Fake.p5] w1).
  - intros b H. vm_compute in H. discriminate H.
  - vm_compute. reflexivity.
Defined.

Lemma loaders_store_before_decoding_witness :
  let w := Fake.world [] Fake.garbling in
  let path := "cache/octo/demo/pulls/1.json" in
  let body := list_byte_of_string Fake.doc_broken in
  let w3 := world_after (writeCache path body (fetched path (pulls_url "octo/demo" 1) w)) w in
  loadPulls (lib := Fake.lib) "octo/demo" 1 w
    = Fatal "JSON unmarshalling failed: unexpected end of JSON input" w3 /\
  fs w3 !! path = Some (File body) /\
  loadPulls (lib := Fake.lib) "octo/demo" 1 w3 = Returned [] (emit (EvOpen path) w3).
Proof.
  intros w path body w3.
  apply (proj1 (loaders_store_before_decoding (lib := Fake.lib) "octo/demo" "" 1) w
           {| StatusCode := 200; Body := (body, None) |} w3 []
           "unexpected end of JSON input").
  - intros b H. vm_compute in H. discriminate H.
  - reflexivity.
  - simpl. lia.
  - vm_compute. reflexivity.
  - reflexivity.
Defined.

Lemma loaders_die_on_failed_fetch_witness :
  let w := Fake.demo in
  exists msg wf,
    loadEvents (lib := Fake.lib) "octo/demo" 5 w = Fatal msg wf /\ fs wf = fs w /\
    remote_calls wf =
      (remote_calls w ++ [EvGet (events_url "octo/demo" 5)])%list.
Proof.
  intros w.
  apply (proj1 (proj2 (loaders_die_on_failed_fetch (lib := Fake.lib) "octo/demo" "" 5)) w).
  - intros b H. vm_compute in H. discriminate H.
  - intros resp H. discriminate H.
Defined.

(** ** The directories and the file [writeCache] makes *)

Lemma mkdirs_keeps_dir (ds : list string) (m : gmap string Node) k :
  m !! k = Some Dir -> (mkdirs ds m).1 !! k = Some Dir.
Proof.
  revert m. induction ds as [|d ds IH]; intros m Hk; simpl; [done|].
  destruct (m !! d) as [[data|]|] eqn:Hd; [done| |]; apply IH;
    (destruct (decide (d = k)) as [->|Hne];
     [apply lookup_insert_eq | rewrite lookup_insert_ne; done]).
Qed.

Lemma mkdirs_made (ds : list string) (m : gmap string Node) :
  (mkdirs ds m).2 = false ->
  Forall (fun d => (mkdirs ds m).1 !! d = Some Dir) ds.
Proof.
  revert m. induction ds as [|d ds IH]; intros m; simpl; [constructor|].
  destruct (m !! d) as [[data|]|] eqn:Hd; [discriminate| |]; intros He;
    (constructor; [apply mkdirs_keeps_dir, lookup_insert_eq | apply IH, He]).
Qed.

Lemma mkdirs_again (ds : list string) (m : gmap string Node) :
  Forall (fun d => m !! d = Some Dir) ds -> mkdirs ds m = (m, false).
Proof.
  induction 1 as [|d ds Hd _ IH]; simpl; [reflexivity|].
  rewrite Hd, insert_id by exact Hd. exact IH.
Qed.


Lemma mkdirs_files_old (ds : list string) (m : gmap string Node) k b :
  (mkdirs ds m).1 !! k = Some (File b) -> m !! k = Some (File b).
Proof.
  revert m. induction ds as [|d ds IH]; intros m; simpl; [done|].
  destruct (m !! d) as [[data|]|] eqn:Hd; [done| |]; intros H;
    apply IH in H; (destruct (decide (d = k)) as [->|Hne];
     [rewrite lookup_insert_eq in H; discriminate
     | rewrite lookup_insert_ne in H; done]).
Qed.

Lemma mkdirs_file_fails (ds : list string) (m : gmap string Node) d c :
  d ∈ ds -> m !! d = Some (File c) -> (mkdirs ds m).2 = true.
Proof.
  revert m. induction ds as [|d' ds IH]; intros m Hin Hd; simpl.
  - apply elem_of_nil in Hin. destruct Hin.
  - destruct (m !! d') as [[data|]|] eqn:Hd'; [reflexivity| |];
      (apply elem_of_cons in Hin as [->|Hin]; [congruence|]);
      apply IH; try exact Hin; rewrite lookup_insert_ne; congruence.
Qed.

(** What a write that returns found and did. *)
Lemma writeCache_returned (path : string) (b : bytes) (w w1 : World) :
  writeCache path b w = Returned tt w1 ->
  exists subdir m,
    slice_to path (strings_LastIndex path "/") = Some subdir /\
    subdir <> "" /\
    mkdirs (ancestors subdir) (fs w) = (m, false) /\
    m !! path <> Some Dir /\
    ends_with_slash path = false /\
    m !! subdir = Some Dir /\
    fs w1 = <[path := File b]> m.
Proof.
  unfold writeCache. destruct (slice_to _ _) as [subdir|] eqn:Hs; [|discriminate].
  unfold bind, os_MkdirAll.
  destruct (String.eqb_spec subdir ""); [discriminate|].
  destruct (mkdirs _ _) as [m [|]] eqn:Hm; [discriminate|].
  unfold os_WriteFile. cbn [fs set_fs emit].
  intros H. exists subdir, m.
  assert (m !! path <> Some Dir /\ ends_with_slash path = false /\
          parent_exists path m = true /\ fs w1 = <[path := File b]> m)
    as (Hp & He & Hpar & Hfs).
  { destruct (m !! path) as [[data|]|]; try discriminate;
      destruct (ends_with_slash path); try discriminate;
      destruct (parent_exists path m); try discriminate;
      injection H as <-; repeat split; discriminate. }
  repeat split; try assumption.
  unfold parent_exists in Hpar. rewrite Hs in Hpar.
  destruct (String.eqb_spec subdir ""); [contradiction|].
  destruct (m !! subdir) as [[data|]|]; try discriminate. reflexivity.
Qed.

(** X5.  A write to the cache that returned can be repeated with other
    bytes: the second write returns too, changes nothing but the file, and
    a read then gives the bytes written last. *)
Theorem writeCache_overwrites (path : string) (b1 b2 : bytes) (w w1 : World) :
  writeCache path b1 w = Returned tt w1 ->
  exists w2 w3,
    writeCache path b2 w1 = Returned tt w2 /\
    fs w2 = <[path := File b2]> (fs w1) /\
    readCache path w2 = Returned (Some b2) w3.
Proof.
  intros Hw.
  destruct (writeCache_returned _ _ _ _ Hw)
    as (subdir & m & Hs & Hne & Hm & Hp & He & Hsub & Hfs).
  assert (forall d, m !! d = Some Dir -> fs w1 !! d = Some Dir) as Hdir.
  { intros d Hd. rewrite Hfs, lookup_insert_ne; [exact Hd | congruence]. }
  assert (mkdirs (ancestors subdir) (fs w1) = (fs w1, false)) as Hm2.
  { apply mkdirs_again.
    pose proof (mkdirs_made (ancestors subdir) (fs w)) as Hmade.
    rewrite Hm in Hmade. specialize (Hmade eq_refl).
    eapply Forall_impl; [exact Hmade | exact Hdir]. }
  assert (exists w2, writeCache path b2 w1 = Returned tt w2 /\
                     fs w2 = <[path := File b2]> (fs w1)) as (w2 & Hw2 & Hfs2).
  { unfold writeCache. rewrite Hs. unfold bind, os_MkdirAll.
    destruct (String.eqb_spec subdir ""); [contradiction|].
    rewrite Hm2. unfold os_WriteFile. cbn [fs set_fs emit].
    assert (fs w1 !! path = Some (File b1)) as ->
      by (rewrite Hfs; apply lookup_insert_eq).
    assert (parent_exists path (fs w1) = true) as ->.
    { unfold parent_exists. rewrite Hs.
      destruct (String.eqb_spec subdir ""); [contradiction|].
      rewrite (Hdir subdir Hsub). reflexivity. }
    rewrite He. simpl. eexists. split; reflexivity. }
  exists w2, (emit (EvOpen path) w2). repeat split; try assumption.
  apply readCache_file. rewrite Hfs2. apply lookup_insert_eq.
Qed.


Lemma writeCache_on_directory (path : string) (b : bytes) (w : World) :
  ~ slash_free path -> fs w !! path = Some Dir ->
  exists msg wf, writeCache path b w = Fatal msg wf /\ fs wf !! path = Some Dir.
Proof.
  intros Hslash Hdir. unfold writeCache.
  destruct (slice_to _ _) as [subdir|] eqn:Hs;
    [|apply slice_at_LastIndex in Hs; contradiction].
  unfold bind, os_MkdirAll.
  destruct (String.eqb subdir ""); [eexists _, _; split; [reflexivity | exact Hdir]|].
  pose proof (mkdirs_keeps_dir (ancestors subdir) (fs w) path Hdir) as Hk.
  destruct (mkdirs _ _) as [m [|]]; simpl in Hk;
    [eexists _, _; split; [reflexivity | exact Hk]|].
  unfold os_WriteFile. cbn [fs set_fs emit]. rewrite Hk.
  eexists _, _; split; [reflexivity | exact Hk].
Qed.

(** X7.  A write to the cache ends the process when a directory is in its
    way.  When the path holds a directory, the write does not return.  When
    a file sits where a directory of the path should be, the write ends
    with the message [could not mkdir], and no file was made or changed. *)
Theorem writeCache_blocked (path : string) (b : bytes) (w : World) :
  ~ slash_free path ->
  (fs w !! path = Some Dir ->
     exists msg wf, writeCache path b w = Fatal msg wf /\
       fs wf !! path = Some Dir) /\
  (forall subdir d c,
     slice_to path (strings_LastIndex path "/") = Some subdir ->
     d ∈ ancestors subdir -> fs w !! d = Some (File c) ->
     exists wf, writeCache path b w = Fatal ("could not mkdir " +:+ subdir) wf /\
       forall k x, fs wf !! k = Some (File x) -> fs w !! k = Some (File x)).
Proof.
  intros Hslash. split.
  - apply writeCache_on_directory, Hslash.
  - intros subdir d c Hs Hin Hd. unfold writeCache. rewrite Hs.
    unfold bind, os_MkdirAll.
    destruct (String.eqb subdir "");
      [eexists; split; [reflexivity | intros k x Hx; exact Hx]|].
    pose proof (mkdirs_file_fails (ancestors subdir) (fs w) d c Hin Hd) as Hf.
    pose proof (mkdirs_files_old (ancestors subdir) (fs w)) as Hold.
    destruct (mkdirs _ _) as [m [|]]; [|discriminate].
    eexists; split; [reflexivity | exact Hold].
Qed.

Lemma writeCache_overwrites_witness :
  let path := "cache/octo/demo/pulls/3.json" in
  let b1 := list_byte_of_string Fake.doc_empty in
  let b2 := list_byte_of_string Fake.doc_page in
  let w1 := world_after (writeCache path b1 Fake.demo) Fake.demo in
  exists w2 w3,
    writeCache path b2 w1 = Returned tt w2 /\
    fs w2 = <[path := File b2]> (fs w1) /\
    readCache path w2 = Returned (Some b2) w3.
Proof.
  intros path b1 b2 w1.
  apply (writeCache_overwrites path b1 b2 Fake.demo w1).
  vm_compute. reflexivity.
Defined.


Lemma writeCache_blocked_witness :
  let w := Fake.world [("cache/octo", Fake.file "not a directory")] Fake.offline in
  exists wf,
    writeCache "cache/octo/demo/pulls/1.json" [] w
      = Fatal "could not mkdir cache/octo/demo/pulls" wf /\
    forall k x, fs wf !! k = Some (File x) -> fs w !! k = Some (File x).
Proof.
  intros w.
  apply (proj2 (writeCache_blocked "cache/octo/demo/pulls/1.json" [] w
                  (cache_path_slash "octo/demo/pulls/1.json"))
           "cache/octo/demo/pulls" "cache/octo"
           (list_byte_of_string "not a directory")).
  - vm_compute. reflexivity.
  - change ("cache/octo" ∈ ["cache"; "cache/octo"; "cache/octo/demo";
                            "cache/octo/demo/pulls"]).
    apply list_elem_of_further, list_elem_of_here.
  - vm_compute. reflexivity.
Defined.

(** ** [PullList] as [sort.Sort] needs it *)

Lemma index_in_range {A} (l : list A) (i : Z) :
  is_Some (index l i) <-> 0 <= i < Z.of_nat (length l).
Proof.
  unfold index. destruct (Z.leb_spec 0 i).
  - rewrite lookup_lt_is_Some. lia.
  - split; [intros [x Hx]; discriminate | lia].
Qed.

Lemma index_None {A} (l : list A) (i : Z) :
  index l i = None <-> ~ (0 <= i < Z.of_nat (length l)).
Proof.
  rewrite <- index_in_range, eq_None_not_Some. reflexivity.
Qed.

Lemma PullList_Less_Some (pl : list Pull) (i j : Z) (r : bool) :
  PullList_Less pl i j = Some r <->
  exists a b, index pl i = Some a /\ index pl j = Some b /\
              r = (Number a >? Number b).
Proof.
  unfold PullList_Less. split.
  - destruct (index pl i) as [a|]; [|discriminate].
    destruct (index pl j) as [b|]; [|discriminate].
    intros [= <-]. eauto.
  - intros (a & b & -> & -> & ->). reflexivity.
Qed.

(** Turn the comparisons [>?] of [Less] into inequalities. *)
Ltac gtb_prop :=
  repeat match goal with
  | H : true = (_ >? _) |- _ =>
      symmetry in H; rewrite Z.gtb_ltb in H; apply Z.ltb_lt in H
  | H : false = (_ >? _) |- _ =>
      symmetry in H; rewrite Z.gtb_ltb in H; apply Z.ltb_ge in H
  | |- true = (_ >? _) => symmetry; rewrite Z.gtb_ltb; apply Z.ltb_lt
  | |- false = (_ >? _) => symmetry; rewrite Z.gtb_ltb; apply Z.ltb_ge
  end.

(** X8.  [Less] panics exactly when an index is out of range, and within
    the range it is a strict weak order of the indices, as [sort.Sort]
    needs: irreflexive, asymmetric, transitive, and with a transitive
    "neither is less". *)
Theorem PullList_Less_strict_weak (pl : list Pull) :
  (forall i j, PullList_Less pl i j = None <->
     ~ (0 <= i < PullList_Len pl /\ 0 <= j < PullList_Len pl)) /\
  (forall i, 0 <= i < PullList_Len pl -> PullList_Less pl i i = Some false) /\
  (forall i j, PullList_Less pl i j = Some true ->
     PullList_Less pl j i = Some false) /\
  (forall i j k, PullList_Less pl i j = Some true ->
     PullList_Less pl j k = Some true -> PullList_Less pl i k = Some true) /\
  (forall i j k,
     PullList_Less pl i j = Some false -> PullList_Less pl j i = Some false ->
     PullList_Less pl j k = Some false -> PullList_Less pl k j = Some false ->
     PullList_Less pl i k = Some false /\ PullList_Less pl k i = Some false).
Proof.
  unfold PullList_Len. repeat split.
  - unfold PullList_Less. intros H [Hi Hj].
    apply index_in_range in Hi as [a Ha]. apply index_in_range in Hj as [b Hb].
    rewrite Ha, Hb in H. discriminate.
  - intros H. unfold PullList_Less.
    destruct (index pl i) as [a|] eqn:Ha; [|reflexivity].
    destruct (index pl j) as [b|] eqn:Hb; [|reflexivity].
    destruct H. split; apply index_in_range; eauto.
  - intros i Hi. apply index_in_range in Hi as [a Ha].
    apply PullList_Less_Some. exists a, a. repeat split; try assumption.
    gtb_prop. lia.
  - intros i j (a & b & Ha & Hb & Hr)%PullList_Less_Some.
    apply PullList_Less_Some. exists b, a. repeat split; try assumption. gtb_prop. lia.
  - intros i j k (a & b & Ha & Hb & Hr)%PullList_Less_Some
                 (b' & c & Hb' & Hc & Hr')%PullList_Less_Some.
    apply PullList_Less_Some. exists a, c. repeat split; try assumption.
    assert (b' = b) as -> by congruence. gtb_prop. lia.
  - revert H H0 H1 H2.
    intros (a & b & Ha & Hb & Hr)%PullList_Less_Some
           (b1 & a1 & Hb1 & Ha1 & Hr1)%PullList_Less_Some
           (b2 & c & Hb2 & Hc & Hr2)%PullList_Less_Some
           (c3 & b3 & Hc3 & Hb3 & Hr3)%PullList_Less_Some.
    apply PullList_Less_Some. exists a, c. repeat split; try assumption.
    assert (b1 = b /\ a1 = a /\ b2 = b /\ c3 = c /\ b3 = b)
      as (-> & -> & -> & -> & ->) by (repeat split; congruence).
    gtb_prop. lia.
  - revert H H0 H1 H2.
    intros (a & b & Ha & Hb & Hr)%PullList_Less_Some
           (b1 & a1 & Hb1 & Ha1 & Hr1)%PullList_Less_Some
           (b2 & c & Hb2 & Hc & Hr2)%PullList_Less_Some
           (c3 & b3 & Hc3 & Hb3 & Hr3)%PullList_Less_Some.
    apply PullList_Less_Some. exists c, a. repeat split; try assumption.
    assert (b1 = b /\ a1 = a /\ b2 = b /\ c3 = c /\ b3 = b)
      as (-> & -> & -> & -> & ->) by (repeat split; congruence).
    gtb_prop. lia.
Qed.

Lemma exchange_lookup {A} (l : list A) (I J n : nat) (a b : A) :
  l !! I = Some a -> l !! J = Some b ->
  <[J := a]> (<[I := b]> l) !! n =
    if decide (n = J) then Some a else if decide (n = I) then Some b else l !! n.
Proof.
  intros Ha Hb.
  pose proof (lookup_lt_Some _ _ _ Ha). pose proof (lookup_lt_Some _ _ _ Hb).
  rewrite !list_lookup_insert, length_insert.
  repeat case_decide; try reflexivity; lia.
Qed.

(** X9.  [Swap] panics exactly when an index is out of range.  When it
    returns, the list has the same length, the elements at the two indices
    have changed places, every other element is where it was, and the same
    [Swap] again gives the list back. *)
Theorem PullList_Swap_exchanges (pl : list Pull) (i j : Z) :
  (PullList_Swap pl i j = None <->
     ~ (0 <= i < PullList_Len pl /\ 0 <= j < PullList_Len pl)) /\
  (forall pl', PullList_Swap pl i j = Some pl' ->
     PullList_Len pl' = PullList_Len pl /\
     index pl' i = index pl j /\ index pl' j = index pl i /\
     (forall k, k <> i -> k <> j -> index pl' k = index pl k) /\
     PullList_Swap pl' i j = Some pl).
Proof.
  unfold PullList_Len. split.
  - unfold PullList_Swap. split.
    + intros H [Hi Hj].
      apply index_in_range in Hi as [a Ha]. apply index_in_range in Hj as [b Hb].
      rewrite Ha, Hb in H. discriminate.
    + intros H.
      destruct (index pl i) as [a|] eqn:Ha; [|reflexivity].
      destruct (index pl j) as [b|] eqn:Hb; [|reflexivity].
      destruct H. split; apply index_in_range; eauto.
  - intros pl'. unfold PullList_Swap at 1.
    destruct (index pl i) as [a|] eqn:Ha; [|discriminate].
    destruct (index pl j) as [b|] eqn:Hb; [|discriminate].
    intros [= <-]. unfold PullList in *.
    apply index_Some in Ha as [Hi Ha]. apply index_Some in Hb as [Hj Hb].
    assert (forall k, index (<[Z.to_nat j := a]> (<[Z.to_nat i := b]> pl)) k =
              if decide (k = j) then Some a
              else if decide (k = i) then Some b else index pl k) as Hlook.
    { intros k. unfold index. destruct (Z.leb_spec 0 k).
      - rewrite (exchange_lookup pl _ _ _ a b Ha Hb).
        repeat case_decide; try reflexivity; lia.
      - repeat case_decide; try reflexivity; lia. }
    assert (index pl i = Some a) as Hia by (apply index_Some; done).
    assert (index pl j = Some b) as Hjb by (apply index_Some; done).
    split; [rewrite !length_insert; reflexivity|].
    split; [|split; [|split]].
    + rewrite Hlook. repeat case_decide; congruence.
    + rewrite Hlook. repeat case_decide; congruence.
    + intros k Hki Hkj. rewrite Hlook. repeat case_decide; congruence.
    + unfold PullList_Swap. rewrite !Hlook.
      assert ((if decide (i = j) then Some a else
               if decide (i = i) then Some b else index pl i) = Some b) as ->
        by (repeat case_decide; congruence).
      assert ((if decide (j = j) then Some a else
               if decide (j = i) then Some b else index pl j) = Some a) as ->
        by (repeat case_decide; congruence).
      f_equal. apply list_eq. intros n.
      rewrite (exchange_lookup _ _ _ n b a).
      * rewrite (exchange_lookup pl _ _ n a b Ha Hb).
        repeat case_decide; subst; congruence.
      * rewrite (exchange_lookup pl _ _ _ a b Ha Hb).
        repeat case_decide; congruence.
      * rewrite (exchange_lookup pl _ _ _ a b Ha Hb).
        repeat case_decide; congruence.
Qed.

Lemma PullList_Swap_exchanges_witness :
  PullList_Len [Fake.p5; Fake.p4; Fake.p7] = PullList_Len [Fake.p7; Fake.p4; Fake.p5] /\
  index [Fake.p5; Fake.p4; Fake.p7] 0 = index [Fake.p7; Fake.p4; Fake.p5] 2 /\
  index [Fake.p5; Fake.p4; Fake.p7] 2 = index [Fake.p7; Fake.p4; Fake.p5] 0 /\
  (forall k, k <> 0 -> k <> 2 ->
     index [Fake.p5; Fake.p4; Fake.p7] k = index [Fake.p7; Fake.p4; Fake.p5] k) /\
  PullList_Swap [Fake.p5; Fake.p4; Fake.p7] 0 2 = Some [Fake.p7; Fake.p4; Fake.p5].
Proof.
  apply (proj2 (PullList_Swap_exchanges [Fake.p7; Fake.p4; Fake.p5] 0 2)).
  reflexivity.
Defined.

Lemma PullList_Less_strict_weak_witness :
  PullList_Less [Fake.p7; Fake.p4; Fake.p5] 1 0 = Some false.
Proof.
  apply (proj1 (proj2 (proj2 (PullList_Less_strict_weak [Fake.p7; Fake.p4; Fake.p5])))).
  reflexivity.
Defined.

(** ** What [main] hands to the renderer *)

Lemma tagged_app (tag : string) (ps qs : list Pull) :
  tagged tag (ps ++ qs) = tagged tag ps + tagged tag qs.
Proof. unfold tagged. rewrite filter_app, length_app. lia. Qed.

Lemma tagged_one (tag : string) (p : Pull) :
  tagged tag [p] = if decide (MyContribution p = tag) then 1 else 0.
Proof.
  unfold tagged. rewrite filter_cons, filter_nil.
  destruct (decide (MyContribution p = tag)); reflexivity.
Qed.

Lemma visited_tags (p : Pull) (st st' : Tally) (c : Ctl) :
  visited p st c st' -> tally_tags st -> tally_tags st'.
Proof.
  intros Hv (Hok & Ha & Hm).
  split; [exact (visited_ok _ _ _ _ Hv Hok)|].
  destruct Hok as (Ha0 & Hm0 & Hsum & Hlen).
  destruct Hv; simpl; try (split; assumption);
    rewrite !tagged_app, !tagged_one; simpl;
    rewrite ?incr_small by lia;
    repeat case_decide; try discriminate; try congruence; lia.
Qed.

Section Results.

Context {lib : GoLib}.

Lemma classify_tag (repo : string) (p : Pull) (tag : Tag) (w w1 : World) :
  classify repo p w = Returned tag w1 ->
  match tag with
  | TagAuthored => Login (Pull_User p) = mpenkov
  | TagMerged => Login (Pull_User p) <> mpenkov /\ State p = "closed"
  | TagNone => True
  end.
Proof.
  unfold classify.
  destruct (String.eqb_spec (Login (Pull_User p)) mpenkov) as [He|Hne].
  - intros [= <- _]. exact He.
  - unfold bind. destruct (String.eqb_spec (State p) "closed") as [Hs|Hs].
    + destruct (whoMerged _ _ _) as [who w2| | |]; try discriminate.
      unfold ret. destruct (String.eqb _ _); intros [= <- _]; auto.
    + unfold ret. intros [= <- _]. exact I.
Qed.

Lemma visit_kept (repo : string) (p : Pull) (st st' : Tally) (c : Ctl) (w w' : World) :
  visit repo p st w = Returned (c, st') w' ->
  Forall kept (pulls st) -> Forall kept (pulls st').
Proof.
  unfold visit, bind, parseTime. fold layout.
  destruct (time_Parse layout (CreatedAt p)) as [t|] eqn:Ht; [|discriminate].
  unfold ret at 1.
  destruct (Z.gtb_spec (Year t) 2021); [intros [= _ <- _]; auto|].
  destruct (Z.ltb_spec (Year t) 2021); [intros [= _ <- _]; auto|].
  destruct (classify _ _ _) as [tag w1| | |] eqn:Hc; try discriminate.
  apply classify_tag in Hc. simpl in Hc.
  assert (Year t = 2021) as Hy by lia.
  destruct tag; unfold append_slice;
    try (destruct (_ <? _); [|discriminate]);
    intros [= _ <- _] Hall; simpl; auto;
    (apply Forall_app; split; [exact Hall|]);
    (constructor; [|constructor]); (split; [exists t; simpl; auto|]); simpl.
  - left. split; [reflexivity | exact Hc].
  - right. split; [reflexivity | exact Hc].
Qed.

Lemma range_pulls_kept (repo : string) (l : list Pull) :
  forall (st st' : Tally) (w w' : World),
  range_pulls repo l st w = Returned st' w' ->
  Forall kept (pulls st) -> Forall kept (pulls st').
Proof.
  induction l as [|p l IH]; intros st st' w w'; simpl.
  - intros [= <- _]. auto.
  - unfold bind.
    destruct (visit repo p st w) as [[c st1] w1| | |] eqn:Hv; try discriminate.
    intros Hr Hk. pose proof (visit_kept _ _ _ _ _ _ _ Hv Hk) as Hk1.
    destruct c; [eapply IH; eauto | injection Hr as <- _; exact Hk1].
Qed.

Lemma range_pulls_tags (repo : string) (l : list Pull) :
  forall (st st' : Tally) (w w' : World),
  range_pulls repo l st w = Returned st' w' -> tally_tags st -> tally_tags st'.
Proof.
  induction l as [|p l IH]; intros st st' w w'; simpl.
  - intros [= <- _]. auto.
  - unfold bind.
    destruct (visit repo p st w) as [[c st1] w1| | |] eqn:Hv; try discriminate.
    apply visit_visited in Hv. intros Hr Hok.
    pose proof (visited_tags _ _ _ _ Hv Hok) as Hok1.
    destruct c; [eapply IH; eauto | injection Hr as <- _; exact Hok1].
Qed.

(** An invariant of the tally that every loop over a page keeps is kept by
    the loop over the pages. *)
Lemma pages_keeps (I : Tally -> Prop) (fuel : nat) (repo : string) :
  (forall l st st' w w',
     range_pulls repo l st w = Returned st' w' -> I st -> I st') ->
  forall (page : Z) (st st' : Tally) (w w' : World),
  pages fuel repo page st w = Returned st' w' -> I st -> I st'.
Proof.
  intros Hrange.
  induction fuel as [|fuel IH]; intros page st st' w w'; simpl.
  - destruct (done st); [intros [= <- _]; auto | discriminate].
  - destruct (done st); [intros [= <- _]; auto|].
    unfold bind.
    destruct (loadPulls repo page w) as [pagePulls w1| | |]; try discriminate.
    destruct (_ =? 0); [intros [= <- _]; auto|].
    destruct (range_pulls _ _ _ _) as [st1 w2| | |] eqn:Hr; try discriminate.
    intros Hp Hok. eapply IH; [exact Hp|]. eapply Hrange; eauto.
Qed.

(** What a run over one repository leaves with the renderer. *)
Lemma report_repo_outcome (fuel : nat) (repo : string) (w wf : World) :
  world_of (report_repo fuel repo w) = Some wf ->
  (reports wf = reports w /\ report_repo fuel repo w <> Returned tt wf) \/
  exists st w1,
    pages fuel repo 1 Tally_init w = Returned st w1 /\
    reports wf = (reports w ++ [result_of repo st])%list.
Proof.
  unfold report_repo, bind.
  destruct (pages fuel repo 1 Tally_init w) as [st w1|msg w1|w1|] eqn:Hp; simpl.
  - assert (reports w1 = reports w) as Hq
        by (apply (quiet_pages fuel repo 1 Tally_init); rewrite Hp; reflexivity).
    unfold io. intros H. right. exists st, w1. split; [reflexivity|].
    assert (wf = emit (EvReport (result_of repo st)) w1) as ->
      by (destruct (report_Execute _); injection H as <-; reflexivity).
    rewrite reports_emit, Hq. reflexivity.
  - intros [= <-]. left. split; [|discriminate].
    apply (quiet_pages fuel repo 1 Tally_init). rewrite Hp. reflexivity.
  - intros [= <-]. left. split; [|discriminate].
    apply (quiet_pages fuel repo 1 Tally_init). rewrite Hp. reflexivity.
  - discriminate.
Qed.

Lemma range_repos_keeps (P : RepoResult -> Prop) (fuel : nat) :
  (forall repo st w w1,
     pages fuel repo 1 Tally_init w = Returned st w1 -> P (result_of repo st)) ->
  forall (repos : list string) (w wf : World),
  world_of (range_repos fuel repos w) = Some wf ->
  Forall P (reports w) -> Forall P (reports wf).
Proof.
  intros HP. induction repos as [|repo repos IH]; intros w wf; simpl.
  - intros [= <-]. auto.
  - unfold bind.
    destruct (report_repo fuel repo w) as [[] w1|msg w1|w1|] eqn:Hr; simpl;
      try discriminate; intros Hwf Hall;
      assert (Forall P (reports w1)) as Hall1
        by (destruct (report_repo_outcome fuel repo w w1)
              as [[-> _]|(st & w0 & Hp & ->)];
            [rewrite Hr; reflexivity | exact Hall
            | apply Forall_app; split;
              [exact Hall | repeat constructor; eapply HP, Hp]]).
    + eapply IH; eauto.
    + injection Hwf as <-. exact Hall1.
    + injection Hwf as <-. exact Hall1.
Qed.

Lemma main_keeps (P : RepoResult -> Prop) (fuel : nat) (header : string) :
  (forall repo st w w1,
     pages fuel repo 1 Tally_init w = Returned st w1 -> P (result_of repo st)) ->
  forall (Args : list string) (w wf : World),
  world_of (main fuel header Args w) = Some wf ->
  Forall P (reports w) -> Forall P (reports wf).
Proof.
  intros HP Args w wf. unfold main. destruct Args as [|arg0 repos]; simpl.
  - intros [= <-]. auto.
  - unfold bind, io. intros Hm Hall.
    eapply (range_repos_keeps P fuel HP); [exact Hm|].
    rewrite reports_emit. simpl. rewrite app_nil_r. exact Hall.
Qed.

(** X10.  Every pull request of every result [main] hands to the renderer
    was created in 2021, carries the day of its creation as timestamp, and
    is tagged "authored" with [mpenkov] as author, or "merged" with another
    author and the state "closed". *)
Theorem reports_kept
    (fuel : nat) (header : string) (Args : list string) (w wf : World) :
  world_of (main fuel header Args w) = Some wf ->
  Forall (fun r => Forall kept (Pulls r)) (reports w) ->
  Forall (fun r => Forall kept (Pulls r)) (reports wf).
Proof.
  apply main_keeps. intros repo st w0 w1 Hp. simpl.
  eapply (pages_keeps (fun st => Forall kept (pulls st))); [|exact Hp|constructor].
  apply range_pulls_kept.
Qed.

(** X11.  In every result [main] hands to the renderer, [Authored] is the
    number of its pull requests tagged "authored" and [Merged] the number
    of those tagged "merged". *)
Theorem reports_tags_counted
    (fuel : nat) (header : string) (Args : list string) (w wf : World) :
  world_of (main fuel header Args w) = Some wf ->
  Forall tags_counted (reports w) -> Forall tags_counted (reports wf).
Proof.
  apply main_keeps. intros repo st w0 w1 Hp.
  assert (tally_tags st) as (_ & Ha & Hm).
  { eapply (pages_keeps tally_tags); [apply range_pulls_tags | exact Hp |].
    split; [apply Tally_init_ok | split; reflexivity]. }
  split; assumption.
Qed.

End Results.

Lemma reports_kept_witness :
  let w := Fake.demo in
  let wf := world_after (main (lib := Fake.lib) 5 "<html>" ["ghreview"; "octo/demo"] w) w in
  Forall (fun r => Forall (kept (lib := Fake.lib)) (Pulls r)) (reports wf).
Proof.
  intros w wf.
  apply (reports_kept (lib := Fake.lib) 5 "<html>" ["ghreview"; "octo/demo"] w wf).
  - vm_compute. reflexivity.
  - constructor.
Defined.

Lemma reports_tags_counted_witness :
  let w := Fake.demo in
  let wf := world_after (main (lib := Fake.lib) 5 "<html>" ["ghreview"; "octo/demo"] w) w in
  Forall tags_counted (reports wf).
Proof.
  intros w wf.
  apply (reports_tags_counted (lib := Fake.lib) 5 "<html>" ["ghreview"; "octo/demo"] w wf).
  - vm_compute. reflexivity.
  - constructor.
Defined.

(** ** The order and the end of a run *)

Section Run.

Context {lib : GoLib}.

Lemma range_repos_names (fuel : nat) (repos : list string) :
  forall (w wf : World),
  world_of (range_repos fuel repos w) = Some wf ->
  (exists k, Name <$> reports wf = ((Name <$> reports w) ++ take k repos)%list) /\
  (range_repos fuel repos w = Returned tt wf ->
   Name <$> reports wf = ((Name <$> reports w) ++ repos)%list).
Proof.
  induction repos as [|repo repos IH]; intros w wf; simpl.
  - intros [= <-]. split; [exists 0%nat|intros _]; simpl; rewrite app_nil_r; reflexivity.
  - unfold bind.
    destruct (report_repo fuel repo w) as [[] w1|msg w1|w1|] eqn:Hr; simpl;
      try discriminate; intros Hwf.
    + destruct (report_repo_outcome fuel repo w w1) as [[_ Hn]|(st & w0 & _ & Hrep)];
        [rewrite Hr; reflexivity | contradiction |].
      destruct (IH w1 wf Hwf) as [[k Hk] Hall].
      assert (Name <$> reports w1 = ((Name <$> reports w) ++ [repo])%list) as Hw1
        by (rewrite Hrep, fmap_app; reflexivity).
      split.
      * exists (S k). rewrite Hk, Hw1, <- app_assoc. reflexivity.
      * intros Hret. rewrite (Hall Hret), Hw1, <- app_assoc. reflexivity.
    + injection Hwf as <-. split; [|discriminate].
      destruct (report_repo_outcome fuel repo w w1) as [[-> _]|(st & w0 & _ & ->)];
        [rewrite Hr; reflexivity | exists 0%nat | exists 1%nat].
      * simpl. rewrite app_nil_r. reflexivity.
      * rewrite fmap_app. simpl. rewrite take_0. reflexivity.
    + injection Hwf as <-. split; [|discriminate].
      destruct (report_repo_outcome fuel repo w w1) as [[-> _]|(st & w0 & _ & ->)];
        [rewrite Hr; reflexivity | exists 0%nat | exists 1%nat].
      * simpl. rewrite app_nil_r. reflexivity.
      * rewrite fmap_app. simpl. rewrite take_0. reflexivity.
Qed.

(** X12.  [main] hands the renderer one result for each repository named
    on the command line, in the order of the command line: however the run
    ends, the names of the results are those of the first repositories,
    and when [main] returns they are those of all of them. *)
Theorem main_reports_in_order
    (fuel : nat) (header : string) (Args : list string) (w wf : World) :
  world_of (main fuel header Args w) = Some wf ->
  (exists k, Name <$> reports wf
             = ((Name <$> reports w) ++ take k (tail Args))%list) /\
  (main fuel header Args w = Returned tt wf ->
   Name <$> reports wf = ((Name <$> reports w) ++ tail Args)%list).
Proof.
  unfold main. destruct Args as [|arg0 repos]; simpl.
  - intros [= <-]. split; [exists 0%nat; simpl; rewrite app_nil_r; reflexivity
                          | discriminate].
  - unfold bind, io. intros Hm.
    pose proof (range_repos_names fuel repos _ wf Hm) as Hn.
    rewrite reports_emit in Hn. simpl in Hn. rewrite app_nil_r in Hn. exact Hn.
Qed.

(** X13.  When the loop over a sorted page reaches a pull request whose
    creation time does not parse, the loop over the pages ends the process
    with the message [unable to parse time from] and the text, in the world
    the visits before it left. *)
Theorem unparsable_time_is_fatal
    (fuel : nat) (repo : string) (page : Z) (st st2 : Tally) (w w1 w2 : World)
    (pagePulls pre post : list Pull) (p : Pull) :
  done st = false ->
  loadPulls repo page w = Returned pagePulls w1 ->
  pagePulls <> [] ->
  sort_Sort pagePulls = (pre ++ p :: post)%list ->
  range_pulls repo pre st w1 = Returned st2 w2 ->
  done st2 = false ->
  time_Parse layout (CreatedAt p) = None ->
  pages (S fuel) repo page st w
    = Fatal ("unable to parse time from " +:+ CreatedAt p) w2.
Proof.
  intros Hd Hl Hne Hs Hpre Hd2 Hp.
  simpl. rewrite Hd. unfold bind at 1. rewrite Hl.
  destruct pagePulls as [|q qs]; [done|]. cbn [length].
  replace (Z.of_nat (S (length qs)) =? 0) with false
    by (symmetry; apply Z.eqb_neq; lia).
  unfold bind at 1.
  rewrite Hs, (range_pulls_app repo pre (p :: post) st st2 w1 w2 Hpre Hd Hd2).
  simpl. unfold bind at 1. unfold visit, bind at 1, parseTime. fold layout.
  rewrite Hp. reflexivity.
Qed.

Lemma range_repos_app (fuel : nat) (repos1 repos2 : list string) :
  forall (w w0 : World),
  range_repos fuel repos1 w = Returned tt w0 ->
  range_repos fuel (repos1 ++ repos2) w = range_repos fuel repos2 w0.
Proof.
  induction repos1 as [|repo repos1 IH]; intros w w0; simpl.
  - intros [= <-]. reflexivity.
  - unfold bind.
    destruct (report_repo fuel repo w) as [[] w1| | |]; try discriminate.
    apply IH.
Qed.

(** X14.  When the traversal of a repository ends the process, nothing of
    that repository reaches the renderer and the repositories after it on
    the command line are not looked at: [main] ends there, with the
    message of the traversal. *)
Theorem traversal_death_ends_main
    (fuel : nat) (header arg0 repo msg : string) (before after : list string)
    (w w0 w1 : World) :
  range_repos fuel before (emit (EvPrint header) w) = Returned tt w0 ->
  pages fuel repo 1 Tally_init w0 = Fatal msg w1 ->
  main fuel header (arg0 :: before ++ repo :: after) w = Fatal msg w1 /\
  reports w1 = reports w0.
Proof.
  intros Hb Hp. split.
  - unfold main, bind at 1, io.
    rewrite (range_repos_app fuel before (repo :: after) _ w0 Hb).
    simpl. unfold bind at 1, report_repo, bind at 1. rewrite Hp. reflexivity.
  - apply (quiet_pages fuel repo 1 Tally_init). rewrite Hp. reflexivity.
Qed.

End Run.

Lemma main_reports_in_order_witness :
  let w := Fake.demo in
  let wf := world_after (main (lib := Fake.lib) 5 "<html>"
                           ["ghreview"; "octo/demo"; "octo/none"] w) w in
  exists k, Name <$> reports wf
            = ((Name <$> reports w) ++ take k ["octo/demo"; "octo/none"])%list.
Proof.
  intros w wf.
  apply (proj1 (main_reports_in_order (lib := Fake.lib) 5 "<html>"
                  ["ghreview"; "octo/demo"; "octo/none"] w wf
                  ltac:(vm_compute; reflexivity))).
Defined.

Lemma unparsable_time_is_fatal_witness :
  let w := Fake.world [("cache/octo/demo/pulls/1.json", Fake.file Fake.doc_undated)]
             Fake.offline in
  let w1 := emit (EvOpen "cache/octo/demo/pulls/1.json") w in
  pages (lib := Fake.lib_undated) 1 "octo/demo" 1 Tally_init w
    = Fatal "unable to parse time from yesterday" w1.
Proof.
  intros w w1.
  apply (unparsable_time_is_fatal (lib := Fake.lib_undated) 0 "octo/demo" 1 Tally_init
           Tally_init w w1 w1 [Fake.p6] [] [] Fake.p6);
    try (vm_compute; reflexivity); discriminate.
Defined.

Lemma traversal_death_ends_main_witness :
  let w := Fake.demo in
  let w0 := world_after (range_repos (lib := Fake.lib) 5 ["octo/demo"]
                           (emit (EvPrint "<html>") w)) w in
  let w1 := world_after (pages (lib := Fake.lib) 5 "octo/none" 1 Tally_init w0) w0 in
  main (lib := Fake.lib) 5 "<html>" ["ghreview"; "octo/demo"; "octo/none"; "octo/demo"] w
    = Fatal "no route to host" w1 /\
  reports w1 = reports w0.
Proof.
  intros w w0 w1.
  apply (traversal_death_ends_main (lib := Fake.lib) 5 "<html>" "ghreview" "octo/none"
           "no route to host" ["octo/demo"] ["octo/demo"] w w0 w1).
  - vm_compute. reflexivity.
  - vm_compute. reflexivity.
Defined.

(** ** The files of the cache *)














(** ** More on the loaders *)

Section SharedMore.

Context {T : Type} (unmarshal : bytes -> T -> T * option string) (zero : T).
Context (path url : string).

Lemma load_shared_fetches_then_dies :
  ~ slash_free path ->
  fetches_then_dies (load_shared unmarshal zero path url) path url.
Proof.
  intros Hslash w resp Hdir Hn Hs.
  assert (cache_miss path w) as Hm by (intros b; rewrite Hdir; discriminate).
  rewrite (load_shared_miss unmarshal zero path url w Hm), Hn.
  destruct (Z.gtb_spec (StatusCode resp) 299); [lia|].
  destruct (writeCache_on_directory path (Body resp).1 (fetched path url w) Hslash)
    as (msg & wf & Hw & Hd); [exact Hdir|].
  rewrite Hw. exists msg, wf. split; [reflexivity|]. split; [|exact Hd].
  destruct (writeCache_frame path (Body resp).1 (fetched path url w) wf) as [-> _].
  - rewrite Hw. reflexivity.
  - apply remote_calls_fetched.
Qed.

Lemma load_shared_overlooks_read_error :
  overlooks_read_error unmarshal zero (load_shared unmarshal zero path url) path url.
Proof.
  intros w resp w3 v err Hm Hn Hs _ Hw Hu.
  split; [|exact (writeCache_stores _ _ _ _ Hw)].
  rewrite (load_shared_miss unmarshal zero path url w Hm), Hn.
  destruct (Z.gtb_spec (StatusCode resp) 299); [lia|].
  rewrite Hw, Hu. reflexivity.
Qed.

(** A load opens its own file and no other, however it ends. *)
Lemma load_shared_opened (w wf : World) :
  world_of (load_shared unmarshal zero path url w) = Some wf ->
  opened wf = (opened w ++ [path])%list.
Proof.
  unfold load_shared, bind.
  destruct (readCache_returns path w) as [r ->].
  assert (opened (emit (EvOpen path) w) = (opened w ++ [path])%list) as <-
    by apply opened_emit.
  set (w0 := emit (EvOpen path) w).
  destruct r as [data|]; [intros [= <-]; reflexivity|].
  unfold log_Printf, io, httpGet, bind, http_Get, log_Fatal, time_Sleep, io,
    writeCache, bind, os_MkdirAll, os_WriteFile, log_Fatal, ret, panic.
  intros H. repeat (case_match; simplify_eq/=);
    repeat first [rewrite opened_set_fs | rewrite opened_emit]; simpl;
    rewrite ?app_nil_r; reflexivity.
Qed.

End SharedMore.

Section Order.

Context {lib : GoLib}.

(** X16.  A directory where the file of the cache should be counts as a
    miss: the loader requests and sleeps, and then ends the process at the
    write, with the directory still there. *)
Theorem loaders_fetch_then_die (repo sha : string) (n : Z) :
  fetches_then_dies (loadPulls repo n) (pulls_path repo n) (pulls_url repo n) /\
  fetches_then_dies (loadEvents repo n) (events_path repo n) (events_url repo n) /\
  fetches_then_dies (loadCommit repo sha) (commits_path repo sha) (commits_url repo sha).
Proof.
  rewrite loadPulls_shared, loadEvents_shared, loadCommit_shared.
  split; [|split]; apply load_shared_fetches_then_dies, cache_path_slash.
Qed.

(** X17.  The loaders do not notice when reading the body of an answer
    failed: the bytes read so far are stored in the cache and decoded like
    a whole answer. *)
Theorem loaders_overlook_read_error (repo sha : string) (n : Z) :
  overlooks_read_error json_Unmarshal_Pulls []
    (loadPulls repo n) (pulls_path repo n) (pulls_url repo n) /\
  overlooks_read_error json_Unmarshal_Events []
    (loadEvents repo n) (events_path repo n) (events_url repo n) /\
  overlooks_read_error json_Unmarshal_Commit {| Author := {| Login := "" |} |}
    (loadCommit repo sha) (commits_path repo sha) (commits_url repo sha).
Proof.
  rewrite loadPulls_shared, loadEvents_shared, loadCommit_shared.
  split; [|split]; apply load_shared_overlooks_read_error.
Qed.

Lemma visit_opened (repo : string) (p : Pull) (st : Tally) (w wf : World) :
  world_of (visit repo p st w) = Some wf ->
  exists evs, opened wf = (opened w ++ evs)%list /\
              Forall (fun q => exists n, q = events_path repo n) evs.
Proof.
  assert (exists evs, opened w = (opened w ++ evs)%list /\
                      Forall (fun q => exists n, q = events_path repo n) evs) as Hsame
    by (exists []; split; [symmetry; apply app_nil_r | constructor]).
  unfold visit, bind, parseTime.
  destruct (time_Parse _ _) as [t|]; [|intros [= <-]; exact Hsame].
  unfold ret at 1.
  destruct (Year t >? 2021); [intros [= <-]; exact Hsame|].
  destruct (Year t <? 2021); [intros [= <-]; exact Hsame|].
  assert (forall o : Outcome Tag,
            o = classify repo (set_Timestamp p (Format t "2006-01-02")) w ->
            forall w1, world_of o = Some w1 ->
            exists evs, opened w1 = (opened w ++ evs)%list /\
              Forall (fun q => exists n, q = events_path repo n) evs) as Hc.
  { intros o -> w1. unfold classify.
    destruct (String.eqb _ mpenkov); [intros [= <-]; exact Hsame|].
    unfold bind. cbn [State set_Timestamp Number].
    destruct (String.eqb (State p) "closed"); [|intros [= <-]; exact Hsame].
    unfold whoMerged, bind.
    destruct (loadEvents repo (Number p) w) as [events w2|msg w2|w2|] eqn:Hl;
      simpl; try discriminate;
      pose proof (load_shared_opened json_Unmarshal_Events []
                    (events_path repo (Number p)) (events_url repo (Number p)) w w2) as Ho;
      rewrite <- loadEvents_shared, Hl in Ho; specialize (Ho eq_refl);
      [destruct (String.eqb _ mpenkov)|..]; intros [= <-];
      exists [events_path repo (Number p)]; (split; [exact Ho|]);
      repeat constructor; eauto. }
  destruct (classify _ _ _) as [tag w1|msg w1|w1|] eqn:Hcl; simpl;
    try discriminate.
  - specialize (Hc _ eq_refl w1 eq_refl).
    destruct tag; unfold append_slice; try destruct (_ <? _);
      intros [= <-]; exact Hc.
  - intros [= <-]. exact (Hc _ eq_refl w1 eq_refl).
  - intros [= <-]. exact (Hc _ eq_refl w1 eq_refl).
Qed.

Lemma range_pulls_opened (repo : string) (l : list Pull) :
  forall (st : Tally) (w wf : World),
  world_of (range_pulls repo l st w) = Some wf ->
  exists evs, opened wf = (opened w ++ evs)%list /\
              Forall (fun q => exists n, q = events_path repo n) evs.
Proof.
  induction l as [|p l IH]; intros st w wf; simpl.
  - intros [= <-]. exists []. split; [symmetry; apply app_nil_r | constructor].
  - unfold bind.
    destruct (visit repo p st w) as [[c st1] w1|msg w1|w1|] eqn:Hv; simpl;
      try discriminate;
      destruct (visit_opened repo p st w w1) as (evs & Ho & Hall);
      try (rewrite Hv; reflexivity).
    + destruct c.
      * intros H. destruct (IH st1 w1 wf H) as (evs' & Ho' & Hall').
        exists (evs ++ evs')%list. split.
        -- rewrite Ho', Ho, <- app_assoc. reflexivity.
        -- apply Forall_app; split; assumption.
      * intros [= <-]. eauto.
    + intros [= <-]. eauto.
    + intros [= <-]. eauto.
Qed.

(** X18.  A traversal opens the files of the pages in order, one page
    after the other from the page it starts with and without a gap; between
    two pages it opens only event lists of the repository. *)
Theorem pages_in_order (fuel : nat) (repo : string) :
  forall (page : Z) (st : Tally) (w wf : World),
  world_of (pages fuel repo page st w) = Some wf ->
  exists paths,
    opened wf = (opened w ++ paths)%list /\ page_run repo page paths.
Proof.
  induction fuel as [|fuel IH]; intros page st w wf; simpl.
  - destruct (done st); [|discriminate].
    intros [= <-]. exists []. split; [symmetry; apply app_nil_r | constructor].
  - destruct (done st).
    { intros [= <-]. exists []. split; [symmetry; apply app_nil_r | constructor]. }
    assert (forall w1, opened w1 = (opened w ++ [pulls_path repo page])%list ->
              exists paths, opened w1 = (opened w ++ paths)%list /\
                            page_run repo page paths) as Hone.
    { intros w1 Ho. exists [pulls_path repo page]. split; [exact Ho|].
      apply (page_run_page repo page [] []); constructor. }
    unfold bind.
    destruct (loadPulls repo page w) as [pagePulls w1|msg w1|w1|] eqn:Hl; simpl;
      try discriminate;
      pose proof (loadPulls_opened repo page w w1) as Ho;
      rewrite Hl in Ho; specialize (Ho eq_refl);
      try (intros [= <-]; apply Hone, Ho).
    destruct (_ =? 0); [intros [= <-]; apply Hone, Ho|].
    destruct (range_pulls repo (sort_Sort pagePulls) st w1)
      as [st1 w2|msg w2|w2|] eqn:Hr; simpl; try discriminate;
      destruct (range_pulls_opened repo (sort_Sort pagePulls) st w1 w2)
        as (evs & Ho2 & Hall); try (rewrite Hr; reflexivity).
    + intros H. destruct (IH _ _ _ _ H) as (rest & Ho3 & Hrun).
      exists (pulls_path repo page :: evs ++ rest)%list. split.
      * rewrite Ho3, Ho2, Ho, <- !app_assoc. reflexivity.
      * constructor; assumption.
    + intros [= <-]. exists (pulls_path repo page :: evs ++ [])%list. split.
      * rewrite Ho2, Ho, app_nil_r, <- app_assoc. reflexivity.
      * constructor; [assumption | constructor].
    + intros [= <-]. exists (pulls_path repo page :: evs ++ [])%list. split.
      * rewrite Ho2, Ho, app_nil_r, <- app_assoc. reflexivity.
      * constructor; [assumption | constructor].
Qed.

End Order.

Lemma loaders_fetch_then_die_witness :
  let path := "cache/octo/demo/pulls/1.json" in
  let w := Fake.world [(path, Dir)] Fake.serving in
  exists msg wf,
    loadPulls (lib := Fake.lib) "octo/demo" 1 w = Fatal msg wf /\
    remote_calls wf =
      (remote_calls w ++ [EvGet (pulls_url "octo/demo" 1); EvSleep 5000])%list /\
    fs wf !! path = Some Dir.
Proof.
  intros path w.
  apply (proj1 (loaders_fetch_then_die (lib := Fake.lib) "octo/demo" "" 1) w
           {| StatusCode := 200; Body := (list_byte_of_string Fake.doc_page, None) |}).
  - vm_compute. reflexivity.
  - reflexivity.
  - simpl. lia.
Defined.

Lemma loaders_overlook_read_error_witness :
  let path := "cache/octo/demo/pulls/1.json" in
  let body := list_byte_of_string Fake.doc_empty in
  let resp := {| StatusCode := 200; Body := (body, Some "unexpected EOF") |} in
  let w := Fake.world [] (fun _ => Answer resp) in
  let w3 := world_after (writeCache path body (fetched path (pulls_url "octo/demo" 1) w)) w in
  loadPulls (lib := Fake.lib) "octo/demo" 1 w = Returned [] w3 /\
  fs w3 !! path = Some (File body).
Proof.
  intros path body resp w w3.
  apply (proj1 (loaders_overlook_read_error (lib := Fake.lib) "octo/demo" "" 1)
           w resp w3 [] "unexpected EOF").
  - intros b H. vm_compute in H. discriminate H.
  - reflexivity.
  - simpl. lia.
  - reflexivity.
  - vm_compute. reflexivity.
  - reflexivity.
Defined.

Lemma pages_in_order_witness :
  let w := Fake.demo in
  let wf := world_after (pages (lib := Fake.lib) 5 "octo/demo" 1 Tally_init w) w in
  exists paths,
    opened wf = (opened w ++ paths)%list /\ page_run "octo/demo" 1 paths.
Proof.
  intros w wf.
  apply (pages_in_order (lib := Fake.lib) 5 "octo/demo" 1 Tally_init w wf).
  vm_compute. reflexivity.
Defined.

Lemma load_shared_writes_only_after_request {T}
    (unmarshal : bytes -> T -> T * option string) (zero : T) (path url : string) :
  writes_only_after_request (load_shared unmarshal zero path url).
Proof.
  intros w wf Hw Hsame.
  assert (forall l, l <> [] -> remote_calls wf = (remote_calls w ++ l)%list -> False)
    as Hgrow.
  { intros l Hl Hr. rewrite Hsame in Hr.
    rewrite <- (app_nil_r (remote_calls w)) in Hr at 1.
    apply app_inv_head in Hr. congruence. }
  destruct (fs w !! path) as [[data|]|] eqn:Hf.
  - rewrite (load_shared_hit unmarshal zero path url w data Hf) in Hw.
    injection Hw as <-. reflexivity.
  - assert (cache_miss path w) as Hm by (intros b; rewrite Hf; discriminate).
    exfalso. revert Hw. rewrite (load_shared_miss unmarshal zero path url w Hm).
    destruct (net w url) as [err|resp].
    + intros [= <-]. apply (Hgrow [EvGet url]); [discriminate|].
      rewrite !remote_calls_emit. simpl. rewrite !app_nil_r. reflexivity.
    + destruct (StatusCode resp >? 299).
      * intros [= <-]. apply (Hgrow [EvGet url]); [discriminate|].
        rewrite !remote_calls_emit. simpl. rewrite !app_nil_r. reflexivity.
      * intros Hw.
        assert (world_of (writeCache path (Body resp).1 (fetched path url w)) = Some wf)
          as Hwc.
        { destruct (writeCache _ _ _) as [[] w3| | |]; try exact Hw; try discriminate.
          destruct (unmarshal _ _) as [v [err|]]; exact Hw. }
        apply writeCache_frame in Hwc as [Hrc _].
        apply (Hgrow [EvGet url; EvSleep 5000]); [discriminate|].
        rewrite Hrc. apply remote_calls_fetched.
  - assert (cache_miss path w) as Hm by (intros b; rewrite Hf; discriminate).
    exfalso. revert Hw. rewrite (load_shared_miss unmarshal zero path url w Hm).
    destruct (net w url) as [err|resp].
    + intros [= <-]. apply (Hgrow [EvGet url]); [discriminate|].
      rewrite !remote_calls_emit. simpl. rewrite !app_nil_r. reflexivity.
    + destruct (StatusCode resp >? 299).
      * intros [= <-]. apply (Hgrow [EvGet url]); [discriminate|].
        rewrite !remote_calls_emit. simpl. rewrite !app_nil_r. reflexivity.
      * intros Hw.
        assert (world_of (writeCache path (Body resp).1 (fetched path url w)) = Some wf)
          as Hwc.
        { destruct (writeCache _ _ _) as [[] w3| | |]; try exact Hw; try discriminate.
          destruct (unmarshal _ _) as [v [err|]]; exact Hw. }
        apply writeCache_frame in Hwc as [Hrc _].
        apply (Hgrow [EvGet url; EvSleep 5000]); [discriminate|].
        rewrite Hrc. apply remote_calls_fetched.
Qed.

(** X19.  However a loader ends, when it made no request it changed no
    file: the cache is written only after a fetch. *)
Theorem loaders_write_only_after_request
    {lib : GoLib} (repo sha : string) (n : Z) :
  writes_only_after_request (loadPulls repo n) /\
  writes_only_after_request (loadEvents repo n) /\
  writes_only_after_request (loadCommit repo sha).
Proof.
  rewrite loadPulls_shared, loadEvents_shared, loadCommit_shared.
  split; [|split]; apply load_shared_writes_only_after_request.
Qed.

Lemma loaders_write_only_after_request_witness :
  let w := Fake.demo in
  let wf := world_after (loadPulls (lib := Fake.lib) "octo/demo" 1 w) w in
  fs wf = fs w.
Proof.
  intros w wf.
  apply (proj1 (loaders_write_only_after_request (lib := Fake.lib) "octo/demo" "" 1) w wf).
  - vm_compute. reflexivity.
  - vm_compute. reflexivity.
Defined.
